(** * RAG workflow (app.py): a shallow embedding of the four workflow steps
      and of the event dispatch that connects them.

    The program is glue around external libraries: a directory reader, an
    embedding model and vector index, a retriever, an LLM reranker and a
    streaming summarizer.  Those libraries are kept abstract (the classes
    [LibTypes] and [Library]); their calls are modelled as total functions
    whose own exceptions are outside the model.  What app.py itself decides is
    modelled in full: the truthiness tests on the StartEvent fields, the
    write to the workflow context, the constants handed to the libraries,
    the order of the effects, and which step accepts which event type. *)

From stdpp Require Import gmap strings list relations.

Open Scope string_scope.
Open Scope list_scope.

(** ** Configuration objects built by app.py *)

(** [HuggingFaceEmbedding(model_name=...)] *)
Record HuggingFaceEmbedding := { model_name : string }.

(** [Groq(model=...)] *)
Record Groq := { model : string }.

(** [LLMRerank(choice_batch_size=..., top_n=..., llm=...)] *)
Record LLMRerank := {
  choice_batch_size : nat;
  top_n : nat;
  rerank_llm : Groq
}.

(** [CompactAndRefine(llm=..., streaming=..., verbose=...)] *)
Record CompactAndRefine := {
  llm : Groq;
  streaming : bool;
  verbose : bool
}.

(** What a response synthesizer hands back: a completed text, or the
    generator of an answer still being streamed token by token. *)
Inductive Response :=
| CompletedResponse (text : string)
| StreamingResponse (response_gen : list string).

Definition is_streamed (r : Response) : bool :=
  match r with
  | StreamingResponse _ => true
  | CompletedResponse _ => false
  end.

(** The four steps declared with [@step] on [RAGWorkflow]. *)
Inductive step_name := Ingest | Retrieve | Rerank | Synthesize.

Global Instance step_name_eq_dec : EqDecision step_name.
Proof. solve_decision. Defined.

(** Exceptions the glue code itself can raise. *)
Inductive exn :=
| AttributeError (attr : string).

(** The object types of the external libraries: loaded documents, the
    vector index, and scored nodes ([NodeWithScore]). *)
Class LibTypes := {
  Document : Type;
  Index : Type;
  Node : Type
}.

Section Workflow.

Context {T : LibTypes}.

(** ** Python values carried by events and by the context *)

Inductive pyval :=
| VNone
| VBool (b : bool)
| VInt (z : Z)
| VStr (s : string)
| VIndex (i : Index)
| VNodes (ns : list Node)
| VResponse (r : Response).

(** Python truthiness, as tested by [if not x]. *)
Definition truthy (v : pyval) : bool :=
  match v with
  | VNone => false
  | VBool b => b
  | VInt z => negb (Z.eqb z 0)
  | VStr s => negb (String.eqb s "")
  | VNodes ns => negb (Nat.eqb (length ns) 0)
  | VIndex _ => true
  | VResponse _ => true
  end.

(** ** Events *)

(** A StartEvent carries the keyword arguments of [run]. *)
Definition StartEvent := gmap string pyval.

(** [ev.get(key)]: the field, or None when it is absent. *)
Definition ev_get (ev : StartEvent) (key : string) : pyval :=
  default VNone (ev !! key).

Inductive event :=
| StartEv (kwargs : StartEvent)
| RetrieverEvent (nodes : list Node)
| RerankEvent (nodes : list Node)
| StopEvent (result : pyval).

(** ** Effects *)

(** One piece of a printed line: literal text or a formatted value. *)
Inductive piece :=
| Lit (s : string)
| Fmt (v : pyval).

(** The observable actions of a step, in program order. *)
Inductive effect :=
| Print (line : list piece)
| CtxSet (key : string) (v : pyval)
| CtxGet (key : string) (v : pyval)
| LoadData (dirname : pyval)
| FromDocuments (documents : list Document) (embed_model : HuggingFaceEmbedding)
| ARetrieve (index : Index) (similarity_top_k : nat) (query : pyval)
| PostprocessNodes (ranker : LLMRerank) (nodes : list Node) (query_str : pyval)
| ASynthesize (summarizer : CompactAndRefine) (query : pyval) (nodes : list Node).

(** The workflow context (global key/value store of one run) together
    with the trace of effects performed so far. *)
Record World := {
  ctx : gmap string pyval;
  trace : list effect
}.

(** State monad over [World]. *)
Definition M (A : Type) : Type := World -> A * World.

Definition ret {A} (a : A) : M A := fun w => (a, w).

Definition bind {A B} (m : M A) (k : A -> M B) : M B :=
  fun w => let (a, w') := m w in k a w'.

Notation "x <- m ;; k" := (bind m (fun x => k))
  (at level 100, m at next level, right associativity).
Notation "m ;;; k" := (bind m (fun _ => k))
  (at level 100, right associativity).

Definition emit (e : effect) : M unit :=
  fun w => (tt, {| ctx := ctx w; trace := trace w ++ [e] |}).

Definition print (line : list piece) : M unit := emit (Print line).

(** [await ctx.set(key, v)] *)
Definition ctx_set (key : string) (v : pyval) : M unit :=
  fun w => (tt, {| ctx := <[key := v]> (ctx w);
                   trace := trace w ++ [CtxSet key v] |}).

(** [await ctx.get(key, default=d)] *)
Definition ctx_get (key : string) (d : pyval) : M pyval :=
  fun w => let v := default d (ctx w !! key) in
           (v, {| ctx := ctx w; trace := trace w ++ [CtxGet key v] |}).

(** ** The external libraries *)

(** The library entry points app.py calls:
    - [SimpleDirectoryReader(dirname).load_data()]
    - [VectorStoreIndex.from_documents(documents=..., embed_model=...)]
    - [index.as_retriever(similarity_top_k=k).aretrieve(query)]
    - [ranker.postprocess_nodes(nodes, query_str=...)]
    - [summarizer.asynthesize(query, nodes=...)] *)
Class Library := {
  load_data : pyval -> list Document;
  from_documents : list Document -> HuggingFaceEmbedding -> Index;
  aretrieve : Index -> nat -> pyval -> list Node;
  postprocess_nodes : LLMRerank -> list Node -> pyval -> list Node;
  asynthesize : CompactAndRefine -> pyval -> list Node -> Response
}.

Context {L : Library}.

Definition call_load_data (dirname : pyval) : M (list Document) :=
  emit (LoadData dirname) ;;; ret (load_data dirname).

Definition call_from_documents (documents : list Document)
    (em : HuggingFaceEmbedding) : M Index :=
  emit (FromDocuments documents em) ;;; ret (from_documents documents em).

Definition call_aretrieve (index : Index) (k : nat) (query : pyval)
    : M (list Node) :=
  emit (ARetrieve index k query) ;;; ret (aretrieve index k query).

Definition call_postprocess_nodes (ranker : LLMRerank) (nodes : list Node)
    (query_str : pyval) : M (list Node) :=
  emit (PostprocessNodes ranker nodes query_str) ;;;
  ret (postprocess_nodes ranker nodes query_str).

Definition call_asynthesize (summarizer : CompactAndRefine) (query : pyval)
    (nodes : list Node) : M Response :=
  emit (ASynthesize summarizer query nodes) ;;;
  ret (asynthesize summarizer query nodes).

(** ** The steps of [RAGWorkflow] *)

(** What a step hands back to the runtime: an event, None, or an
    exception. *)
Inductive step_result :=
| Emit (e : event)
| ReturnNone
| Raise (x : exn).

Definition embed_model_used : HuggingFaceEmbedding :=
  {| model_name := "BAAI/bge-small-en-v1.5" |}.

Definition groq_llm : Groq := {| model := "llama-3.2-90b-text-preview" |}.

Definition ranker_used : LLMRerank :=
  {| choice_batch_size := 5; top_n := 3; rerank_llm := groq_llm |}.

Definition summarizer_used : CompactAndRefine :=
  {| llm := groq_llm; streaming := true; verbose := true |}.

(** [RAGWorkflow.ingest] *)
Definition ingest (ev : StartEvent) : M step_result :=
  let dirname := ev_get ev "dirname" in
  if negb (truthy dirname) then ret ReturnNone
  else
    documents <- call_load_data dirname ;;
    index <- call_from_documents documents embed_model_used ;;
    ret (Emit (StopEvent (VIndex index))).

(** [RAGWorkflow.retrieve] *)
Definition retrieve (ev : StartEvent) : M step_result :=
  let query := ev_get ev "query" in
  let index := ev_get ev "index" in
  if negb (truthy query) then ret ReturnNone
  else
    print [Lit "Query the database with: "; Fmt query] ;;;
    ctx_set "query" query ;;;
    match index with
    | VNone =>
        print [Lit "Index is empty, load some documents before querying!"] ;;;
        ret ReturnNone
    | VIndex idx =>
        nodes <- call_aretrieve idx 2 query ;;
        print [Lit "Retrieved "; Fmt (VInt (Z.of_nat (length nodes)));
               Lit " nodes."] ;;;
        ret (Emit (RetrieverEvent nodes))
    | _ => ret (Raise (AttributeError "as_retriever"))
    end.

(** [RAGWorkflow.rerank] *)
Definition rerank (nodes : list Node) : M step_result :=
  q <- ctx_get "query" VNone ;;
  print [Fmt q] ;;;
  query_str <- ctx_get "query" VNone ;;
  new_nodes <- call_postprocess_nodes ranker_used nodes query_str ;;
  print [Lit "Reranked nodes to ";
         Fmt (VInt (Z.of_nat (length new_nodes)))] ;;;
  print [Fmt (VNodes new_nodes)] ;;;
  ret (Emit (RerankEvent new_nodes)).

(** [RAGWorkflow.synthesize] *)
Definition synthesize (nodes : list Node) : M step_result :=
  query <- ctx_get "query" VNone ;;
  response <- call_asynthesize summarizer_used query nodes ;;
  ret (Emit (StopEvent (VResponse response))).

(** ** The workflow runtime: which step receives which event

    The [@step] signatures fix the routing: [ingest] and [retrieve] both
    take a StartEvent, [rerank] takes a RetrieverEvent, [synthesize] takes a
    RerankEvent; a StopEvent is taken by the runtime and ends the run. *)

(** A delivery waiting to be served: a step together with its event. *)
Inductive task :=
| TIngest (ev : StartEvent)
| TRetrieve (ev : StartEvent)
| TRerank (nodes : list Node)
| TSynthesize (nodes : list Node).

Definition task_name (t : task) : step_name :=
  match t with
  | TIngest _ => Ingest
  | TRetrieve _ => Retrieve
  | TRerank _ => Rerank
  | TSynthesize _ => Synthesize
  end.

(** The deliveries an event gives rise to, in declaration order. *)
Definition dispatch (e : event) : list task :=
  match e with
  | StartEv kwargs => [TIngest kwargs; TRetrieve kwargs]
  | RetrieverEvent nodes => [TRerank nodes]
  | RerankEvent nodes => [TSynthesize nodes]
  | StopEvent _ => []
  end.

Definition run_task (t : task) : M step_result :=
  match t with
  | TIngest ev => ingest ev
  | TRetrieve ev => retrieve ev
  | TRerank nodes => rerank nodes
  | TSynthesize nodes => synthesize nodes
  end.

(** How a run ends: with the value of a StopEvent, or with an exception. *)
Inductive run_result :=
| Returned (v : pyval)
| Failed (x : exn).

(** One executed delivery and what the step handed back. *)
Record fired := { f_task : task; f_out : step_result }.

Record run_state := {
  rs_world : World;
  rs_pending : list task;
  rs_history : list fired;
  rs_result : option run_result
}.

(** [w.run] with keyword arguments: a fresh context, and the StartEvent
    delivered.  A run in which no step hands back a StopEvent has no
    result (the runtime then waits for its timeout). *)
Definition init (kwargs : StartEvent) : run_state :=
  {| rs_world := {| ctx := ∅; trace := [] |};
     rs_pending := dispatch (StartEv kwargs);
     rs_history := [];
     rs_result := None |}.

(** Serving delivery [t], the other pending deliveries being [rest]. A
    StopEvent or an exception ends the run and cancels what is pending. *)
Definition fire (t : task) (rest : list task) (s : run_state) : run_state :=
  let (out, w') := run_task t (rs_world s) in
  let h := rs_history s ++ [{| f_task := t; f_out := out |}] in
  match out with
  | Emit (StopEvent r) =>
      {| rs_world := w'; rs_pending := []; rs_history := h;
         rs_result := Some (Returned r) |}
  | Emit e =>
      {| rs_world := w'; rs_pending := rest ++ dispatch e; rs_history := h;
         rs_result := rs_result s |}
  | ReturnNone =>
      {| rs_world := w'; rs_pending := rest; rs_history := h;
         rs_result := rs_result s |}
  | Raise x =>
      {| rs_world := w'; rs_pending := []; rs_history := h;
         rs_result := Some (Failed x) |}
  end.

(** The steps are asynchronous: any pending delivery may be served next. *)
Inductive wf_step : run_state -> run_state -> Prop :=
| wf_fire s l1 t l2 :
    rs_pending s = l1 ++ t :: l2 ->
    wf_step s (fire t (l1 ++ l2) s).

Definition reachable (kwargs : StartEvent) (s : run_state) : Prop :=
  rtc wf_step (init kwargs) s.

(** The steps executed so far, in order. *)
Definition executed (s : run_state) : list step_name :=
  (fun f => task_name (f_task f)) <$> rs_history s.

(** The steps that may execute next. *)
Definition enabled (s : run_state) : list step_name :=
  task_name <$> rs_pending s.

(** The schedule that serves deliveries in the order they were made. *)
Fixpoint run_loop (fuel : nat) (s : run_state) : run_state :=
  match fuel, rs_pending s with
  | S fuel', t :: rest => run_loop fuel' (fire t rest s)
  | _, _ => s
  end.

Definition run (kwargs : StartEvent) : run_state :=
  run_loop 4 (init kwargs).

(** ** [main] *)

Definition the_question : string :=
  "Whats the cash back amount for dental expenses?".

(** The value bound to [index] in [main]; None when the run gives no
    value. *)
Definition main_index : option pyval :=
  match rs_result (run {[ "dirname" := VStr "docs" ]}) with
  | Some (Returned index) => Some index
  | _ => None
  end.

(** The value bound to [result] in [main]. *)
Definition main_result : option pyval :=
  match main_index with
  | Some index =>
      match rs_result (run (<[ "query" := VStr the_question ]>
                             {[ "index" := index ]})) with
      | Some (Returned result) => Some result
      | _ => None
      end
  | None => None
  end.

(** The chunks [main] prints, when [result] is a streamed response. *)
Definition main_chunks : option (list string) :=
  match main_result with
  | Some (VResponse (StreamingResponse gen)) => Some gen
  | _ => None
  end.

End Workflow.

(** ** The check made when the module is loaded

    app.py looks the steps of [RAGWorkflow] up, prints them, and goes
    through them printing the [__step_config] of each and a complaint for
    every step that has none. *)

Section Startup.

(** The type of the configuration records [@step] attaches. *)
Context {StepConfig : Type}.

(** A step function, as far as the check looks at it: whether it has the
    attribute [__step_config], and the value of the attribute, which may
    itself be None. *)
Record step_func := { step_config_attr : option (option StepConfig) }.

(** [getattr(step_func, "__step_config", None)] *)
Definition getattr_step_config (f : step_func) : option StepConfig :=
  default None (step_config_attr f).

(** The dict of steps, in its iteration order. *)
Definition step_dict := list (string * step_func).

(** The lines the check prints. *)
Inductive line :=
| StepsClass (steps : step_dict)
| StepConfigLine (step_config : option StepConfig)
| MissingStepConfig (step_name : string).

(** [steps = get_steps_from_class(RAGWorkflow)], replaced by
    [get_steps_from_instance(workflow)] when it is empty. *)
Definition choose_steps (from_class from_instance : step_dict) : step_dict :=
  match from_class with
  | [] => from_instance
  | _ :: _ => from_class
  end.

(** The loop over [steps.items()]. *)
Fixpoint check_loop (steps : step_dict) : list line :=
  match steps with
  | [] => []
  | (step_name, f) :: rest =>
      let step_config := getattr_step_config f in
      StepConfigLine step_config ::
      match step_config with
      | None => MissingStepConfig step_name :: check_loop rest
      | Some _ => check_loop rest
      end
  end.

Definition startup_check (from_class from_instance : step_dict) : list line :=
  let steps := choose_steps from_class from_instance in
  StepsClass steps :: check_loop steps.

(** The complaints among the printed lines. *)
Definition complaints (out : list line) : list string :=
  omap (fun l => match l with MissingStepConfig n => Some n | _ => None end)
       out.

(** The configurations among the printed lines. *)
Definition configs_shown (out : list line) : list (option StepConfig) :=
  omap (fun l => match l with StepConfigLine c => Some c | _ => None end) out.

(** A step the check complains about. *)
Definition lacks_config (p : string * step_func) : bool :=
  match getattr_step_config (snd p) with
  | None => true
  | Some _ => false
  end.

End Startup.


(** ** What the steps rely on from the libraries *)

Section Contracts.

Context {T : LibTypes} {L : Library}.

(** A retriever built with [similarity_top_k=k] returns at most [k] nodes. *)
Definition top_k_contract : Prop :=
  forall (idx : Index) (k : nat) (q : pyval),
    length (aretrieve idx k q) <= k.

(** The reranker keeps at most [top_n] of the nodes it is given, in an
    order of its own choosing. *)
Definition rerank_contract : Prop :=
  forall (r : LLMRerank) (ns : list Node) (q : pyval),
    length (postprocess_nodes r ns q) <= top_n r /\
    postprocess_nodes r ns q ⊆+ ns.

(** A synthesizer built with [streaming=True] answers with a stream. *)
Definition streaming_contract : Prop :=
  forall (s : CompactAndRefine) (q : pyval) (ns : list Node),
    streaming s = true -> is_streamed (asynthesize s q ns) = true.

(** The context writes recorded in a trace. *)
Definition writes (tr : list effect) : list (string * pyval) :=
  omap (fun e => match e with CtxSet k v => Some (k, v) | _ => None end) tr.

(** The context reads recorded in a trace. *)
Definition reads (tr : list effect) : list (string * pyval) :=
  omap (fun e => match e with CtxGet k v => Some (k, v) | _ => None end) tr.

(** What each step can hand back, by its return annotation and its body. *)
Definition out_shape (t : task) (out : step_result) : Prop :=
  match t with
  | TIngest _ =>
      out = ReturnNone \/ exists i, out = Emit (StopEvent (VIndex i))
  | TRetrieve _ =>
      out = ReturnNone \/ (exists ns, out = Emit (RetrieverEvent ns)) \/
      exists x, out = Raise x
  | TRerank _ => exists ns, out = Emit (RerankEvent ns)
  | TSynthesize _ => exists r, out = Emit (StopEvent (VResponse r))
  end.

(** Where a delivery comes from: the StartEvent of the run, or the event
    an earlier step of the same run handed back. *)
Definition justified (ev : StartEvent) (h : list fired) (t : task) : Prop :=
  match t with
  | TIngest ev' => ev' = ev
  | TRetrieve ev' => ev' = ev
  | TRerank nodes =>
      {| f_task := TRetrieve ev; f_out := Emit (RetrieverEvent nodes) |} ∈ h
  | TSynthesize nodes =>
      exists nodes',
        {| f_task := TRerank nodes'; f_out := Emit (RerankEvent nodes) |} ∈ h
  end.

(** The invariant of a run started with [ev]. *)
Record run_inv (ev : StartEvent) (s : run_state) : Prop := {
  inv_nodup : NoDup (executed s ++ enabled s);
  inv_pending : forall t, t ∈ rs_pending s -> justified ev (rs_history s) t;
  inv_fired :
    forall f, f ∈ rs_history s -> justified ev (rs_history s) (f_task f);
  inv_out : forall f, f ∈ rs_history s -> out_shape (f_task f) (f_out f);
  inv_stop :
    forall f r, f ∈ rs_history s -> f_out f = Emit (StopEvent r) ->
      rs_result s = Some (Returned r) /\ rs_pending s = [];
  inv_query :
    forall nodes,
      {| f_task := TRetrieve ev; f_out := Emit (RetrieverEvent nodes) |}
        ∈ rs_history s ->
      ctx (rs_world s) !! "query" = Some (ev_get ev "query");
  inv_writes :
    forall k v, (k, v) ∈ writes (trace (rs_world s)) ->
      k = "query" /\ v = ev_get ev "query" /\ Retrieve ∈ executed s;
  inv_reads :
    forall k v, (k, v) ∈ reads (trace (rs_world s)) ->
      k = "query" /\ v = ev_get ev "query"
}.

(** The deliveries left pending, and the result of the run, once a step
    has handed back [out]. *)
Definition pending_after (out : step_result) (rest : list task) : list task :=
  match out with
  | Emit (StopEvent _) => []
  | Emit e => rest ++ dispatch e
  | ReturnNone => rest
  | Raise _ => []
  end.

Definition result_after (out : step_result) (old : option run_result)
    : option run_result :=
  match out with
  | Emit (StopEvent r) => Some (Returned r)
  | Raise x => Some (Failed x)
  | _ => old
  end.

(** "No reachable state offers a choice between two successor steps." *)
Definition no_choice : Prop :=
  forall (ev : StartEvent) (s : run_state),
    reachable ev s ->
    forall n m, n ∈ enabled s -> m ∈ enabled s -> n = m.

(** "For every StartEvent carrying a non-empty query and a non-None index,
    the retrieve step emits a RetrieverEvent." *)
Definition retrieves_on_any_index : Prop :=
  forall (ev : StartEvent) (w : World),
    truthy (ev_get ev "query") = true ->
    ev_get ev "index" <> VNone ->
    exists nodes, fst (retrieve ev w) = Emit (RetrieverEvent nodes).

(** A field of the StartEvent that is absent or falsy. *)
Definition missing (ev : StartEvent) (key : string) : Prop :=
  ev !! key = None \/ truthy (ev_get ev key) = false.

(** The values that flow along the chain in a run started with [ev] whose
    index is [idx]. *)
Definition retrieved (ev : StartEvent) (idx : Index) : list Node :=
  aretrieve idx 2 (ev_get ev "query").

Definition reranked (ev : StartEvent) (idx : Index) : list Node :=
  postprocess_nodes ranker_used (retrieved ev idx) (ev_get ev "query").

Definition answer (ev : StartEvent) (idx : Index) : Response :=
  asynthesize summarizer_used (ev_get ev "query") (reranked ev idx).

(** The index [ingest] builds for [ev]. *)
Definition built_index (ev : StartEvent) : Index :=
  from_documents (load_data (ev_get ev "dirname")) embed_model_used.

(** All that a query run does, in order. *)
Definition query_trace (ev : StartEvent) (idx : Index) : list effect :=
  [Print [Lit "Query the database with: "; Fmt (ev_get ev "query")];
   CtxSet "query" (ev_get ev "query");
   ARetrieve idx 2 (ev_get ev "query");
   Print [Lit "Retrieved ";
          Fmt (VInt (Z.of_nat (length (retrieved ev idx)))); Lit " nodes."];
   CtxGet "query" (ev_get ev "query");
   Print [Fmt (ev_get ev "query")];
   CtxGet "query" (ev_get ev "query");
   PostprocessNodes ranker_used (retrieved ev idx) (ev_get ev "query");
   Print [Lit "Reranked nodes to ";
          Fmt (VInt (Z.of_nat (length (reranked ev idx))))];
   Print [Fmt (VNodes (reranked ev idx))];
   CtxGet "query" (ev_get ev "query");
   ASynthesize summarizer_used (ev_get ev "query") (reranked ev idx)].

(** The world once the first [n] effects of a query run have happened. *)
Definition query_world (ev : StartEvent) (idx : Index) (n : nat) : World :=
  {| ctx := {[ "query" := ev_get ev "query" ]};
     trace := take n (query_trace ev idx) |}.

(** All that an ingest run does. *)
Definition ingest_trace (ev : StartEvent) : list effect :=
  [LoadData (ev_get ev "dirname");
   FromDocuments (load_data (ev_get ev "dirname")) embed_model_used].

(** What a delivery hands back in a run started with [ev]: [ingest] and
    [retrieve] decide on the StartEvent alone, the two last steps of the
    chain work on the query of the StartEvent. *)
Definition expected_out (ev : StartEvent) (t : task) : step_result :=
  match t with
  | TIngest _ => fst (ingest ev {| ctx := ∅; trace := [] |})
  | TRetrieve _ => fst (retrieve ev {| ctx := ∅; trace := [] |})
  | TRerank nodes =>
      Emit (RerankEvent
              (postprocess_nodes ranker_used nodes (ev_get ev "query")))
  | TSynthesize nodes =>
      Emit (StopEvent
              (VResponse
                 (asynthesize summarizer_used (ev_get ev "query") nodes)))
  end.

(** The external services the steps call. *)
Inductive service :=
| Reader | IndexBuilder | Retriever | Reranker | Summarizer.

Definition is_call (x : service) (e : effect) : bool :=
  match x, e with
  | Reader, LoadData _ => true
  | IndexBuilder, FromDocuments _ _ => true
  | Retriever, ARetrieve _ _ _ => true
  | Reranker, PostprocessNodes _ _ _ => true
  | Summarizer, ASynthesize _ _ _ => true
  | _, _ => false
  end.

(** How often a trace calls service [x]. *)
Definition calls (x : service) (tr : list effect) : nat :=
  length (List.filter (is_call x) tr).

(** The step whose body calls service [x]. *)
Definition caller (x : service) : step_name :=
  match x with
  | Reader | IndexBuilder => Ingest
  | Retriever => Retrieve
  | Reranker => Rerank
  | Summarizer => Synthesize
  end.

End Contracts.

(** ** A small concrete library, used to run the model on examples *)

Module Demo.

Definition demo_types : LibTypes :=
  {| Document := string; Index := list string; Node := string * Z |}.

Definition demo_load_data (dirname : @pyval demo_types) : list string :=
  ["dental cash back is 100"; "optical cover"; "hospital stay"].

Definition demo_aretrieve (idx : list string) (k : nat)
    (q : @pyval demo_types) : list (string * Z) :=
  take k (map (fun d => (d, Z.of_nat (String.length d))) idx).

Definition demo_postprocess (r : LLMRerank) (ns : list (string * Z))
    (q : @pyval demo_types) : list (string * Z) :=
  take (top_n r) (reverse ns).

Definition demo_asynthesize (s : CompactAndRefine) (q : @pyval demo_types)
    (ns : list (string * Z)) : Response :=
  if streaming s then StreamingResponse (map fst ns)
  else CompletedResponse (String.concat " " (map fst ns)).

Definition demo_lib : @Library demo_types :=
  {| load_data := demo_load_data;
     from_documents := fun docs _ => docs;
     aretrieve := demo_aretrieve;
     postprocess_nodes := demo_postprocess;
     asynthesize := demo_asynthesize |}.

(** Node lists used in the examples. *)
Definition node (text : string) (score : Z) : @Node demo_types := (text, score).

Definition two_chunks : @Index demo_types :=
  ["dental cash back is 100"; "optical cover"].

Definition three_docs : @Index demo_types :=
  ["dental cash back is 100"; "optical cover"; "hospital stay"].

Definition four_nodes : list (@Node demo_types) :=
  [node "a" 1; node "b" 2; node "c" 3; node "d" 4].

Definition two_nodes : list (@Node demo_types) := [node "a" 1; node "b" 2].

Definition w0 : @World demo_types := {| ctx := ∅; trace := [] |}.

(** The StartEvent of the first run of [main]. *)
Definition ev_docs : @StartEvent demo_types := {[ "dirname" := VStr "docs" ]}.

(** A StartEvent with a query and an index, as in the second run. *)
Definition ev_query : @StartEvent demo_types :=
  <[ "query" := VStr the_question ]>
    {[ "index" := VIndex two_chunks ]}.



(** A StartEvent whose index is the name of an index, not an index. *)
Definition ev_bad_index : @StartEvent demo_types :=
  <[ "query" := VStr the_question ]> {[ "index" := VStr "my_index" ]}.

(** A dict of steps of which the second has lost its configuration. *)
Definition steps_one_bare : @step_dict nat :=
  [("ingest", {| step_config_attr := Some (Some 1) |});
   ("retrieve", {| step_config_attr := None |});
   ("rerank", {| step_config_attr := Some (Some 3) |})].

(** The four decorated steps of [RAGWorkflow]. *)
Definition steps_decorated : @step_dict nat :=
  [("ingest", {| step_config_attr := Some (Some 1) |});
   ("retrieve", {| step_config_attr := Some (Some 2) |});
   ("rerank", {| step_config_attr := Some (Some 3) |});
   ("synthesize", {| step_config_attr := Some (Some 4) |})].

End Demo.

(** * Properties *)

Section Facts.

Context {T : LibTypes} {L : Library}.

Implicit Types (ev : StartEvent) (w : World) (s : run_state) (t : task).

(** ** The steps, case by case *)

Lemma ingest_missing ev w :
  truthy (ev_get ev "dirname") = false -> ingest ev w = (ReturnNone, w).
Proof. intros H. unfold ingest. rewrite H. reflexivity. Qed.

Lemma ingest_present ev w :
  truthy (ev_get ev "dirname") = true ->
  ingest ev w =
    (Emit (StopEvent (VIndex
       (from_documents (load_data (ev_get ev "dirname")) embed_model_used))),
     {| ctx := ctx w;
        trace := trace w ++
          [LoadData (ev_get ev "dirname");
           FromDocuments (load_data (ev_get ev "dirname")) embed_model_used] |}).
Proof.
  intros H. unfold ingest. rewrite H. cbn.
  by rewrite <- app_assoc.
Qed.

Lemma retrieve_missing ev w :
  truthy (ev_get ev "query") = false -> retrieve ev w = (ReturnNone, w).
Proof. intros H. unfold retrieve. rewrite H. reflexivity. Qed.

Lemma retrieve_no_index ev w :
  truthy (ev_get ev "query") = true ->
  ev_get ev "index" = VNone ->
  retrieve ev w =
    (ReturnNone,
     {| ctx := <[ "query" := ev_get ev "query" ]> (ctx w);
        trace := trace w ++
          [Print [Lit "Query the database with: "; Fmt (ev_get ev "query")];
           CtxSet "query" (ev_get ev "query");
           Print [Lit "Index is empty, load some documents before querying!"]] |}).
Proof.
  intros Hq Hi. unfold retrieve. rewrite Hq, Hi. cbn.
  by rewrite <- !app_assoc.
Qed.

Lemma retrieve_with_index ev w idx :
  truthy (ev_get ev "query") = true ->
  ev_get ev "index" = VIndex idx ->
  retrieve ev w =
    (Emit (RetrieverEvent (aretrieve idx 2 (ev_get ev "query"))),
     {| ctx := <[ "query" := ev_get ev "query" ]> (ctx w);
        trace := trace w ++
          [Print [Lit "Query the database with: "; Fmt (ev_get ev "query")];
           CtxSet "query" (ev_get ev "query");
           ARetrieve idx 2 (ev_get ev "query");
           Print [Lit "Retrieved ";
                  Fmt (VInt (Z.of_nat
                    (length (aretrieve idx 2 (ev_get ev "query")))));
                  Lit " nodes."]] |}).
Proof.
  intros Hq Hi. unfold retrieve. rewrite Hq, Hi. cbn.
  by rewrite <- !app_assoc.
Qed.

Lemma rerank_eq (nodes : list Node) w :
  let q := default VNone (ctx w !! "query") in
  let new_nodes := postprocess_nodes ranker_used nodes q in
  rerank nodes w =
    (Emit (RerankEvent new_nodes),
     {| ctx := ctx w;
        trace := trace w ++
          [CtxGet "query" q; Print [Fmt q]; CtxGet "query" q;
           PostprocessNodes ranker_used nodes q;
           Print [Lit "Reranked nodes to ";
                  Fmt (VInt (Z.of_nat (length new_nodes)))];
           Print [Fmt (VNodes new_nodes)]] |}).
Proof. cbn. unfold rerank. cbn. by rewrite <- !app_assoc. Qed.

Lemma synthesize_eq (nodes : list Node) w :
  let q := default VNone (ctx w !! "query") in
  synthesize nodes w =
    (Emit (StopEvent (VResponse (asynthesize summarizer_used q nodes))),
     {| ctx := ctx w;
        trace := trace w ++
          [CtxGet "query" q; ASynthesize summarizer_used q nodes] |}).
Proof. cbn. unfold synthesize. cbn. by rewrite <- !app_assoc. Qed.

Lemma retrieve_bad_index ev w :
  truthy (ev_get ev "query") = true ->
  ev_get ev "index" <> VNone ->
  (forall idx, ev_get ev "index" <> VIndex idx) ->
  retrieve ev w =
    (Raise (AttributeError "as_retriever"),
     {| ctx := <[ "query" := ev_get ev "query" ]> (ctx w);
        trace := trace w ++
          [Print [Lit "Query the database with: "; Fmt (ev_get ev "query")];
           CtxSet "query" (ev_get ev "query")] |}).
Proof.
  intros Hq Hn Hi. unfold retrieve. rewrite Hq.
  destruct (ev_get ev "index") as [| | | |i| |] eqn:E; cbn;
    first [ done | by destruct (Hi i) | by rewrite <- !app_assoc ].
Qed.

(** ** What one step does to the world, whatever its input *)

(** Membership of a pair in the reads or writes of an explicit trace. *)
Ltac in_trace :=
  let Hin := fresh "Hin" in
  intros ? ? Hin; cbn in Hin;
  repeat (apply elem_of_cons in Hin as [Hin|Hin];
          [inversion Hin; subst; split_and!; by eauto |]);
  by apply elem_of_nil in Hin.

(** The conjuncts of a step summary, once the step is an explicit pair. *)
Ltac step_facts :=
  eexists _, _, _; (split; [reflexivity|]); cbn; split_and!;
  first [ in_trace
        | by rewrite ?app_nil_r
        | by (intros ? [=])
        | by (intros; apply lookup_insert_eq)
        | by left
        | by eexists
        | by (right; eexists)
        | by (right; left; eexists)
        | by (right; right; eexists)
        | by (right; split) ].

Lemma run_task_summary ev (h : list fired) w t :
  justified ev h t ->
  exists out w' delta,
    run_task t w = (out, w') /\
    trace w' = trace w ++ delta /\
    out_shape t out /\
    (ctx w' = ctx w \/
     (task_name t = Retrieve /\
      ctx w' = <[ "query" := ev_get ev "query" ]> (ctx w))) /\
    (forall nodes, out = Emit (RetrieverEvent nodes) ->
       ctx w' !! "query" = Some (ev_get ev "query")) /\
    (forall k v, (k, v) ∈ writes delta ->
       k = "query" /\ v = ev_get ev "query" /\ task_name t = Retrieve) /\
    (forall k v, (k, v) ∈ reads delta ->
       k = "query" /\ v = default VNone (ctx w !! "query") /\
       (task_name t = Rerank \/ task_name t = Synthesize)).
Proof.
  intros Hj. destruct t as [ev'|ev'|nodes|nodes]; cbn in Hj; cbn [run_task].
  - subst ev'. destruct (truthy (ev_get ev "dirname")) eqn:Hd.
    + rewrite (ingest_present _ _ Hd). step_facts.
    + rewrite (ingest_missing _ _ Hd). exists ReturnNone, w, [].
      rewrite app_nil_r. cbn.
      split_and!; first [done | in_trace | by left | by (intros ? [=])].
  - subst ev'. destruct (truthy (ev_get ev "query")) eqn:Hq.
    + destruct (ev_get ev "index") eqn:Hi.
      2-4,6-7: rewrite retrieve_bad_index by (rewrite ?Hi; congruence);
        step_facts.
      * rewrite (retrieve_no_index _ _ Hq Hi). step_facts.
      * rewrite (retrieve_with_index _ _ _ Hq Hi). step_facts.
    + rewrite (retrieve_missing _ _ Hq). exists ReturnNone, w, [].
      rewrite app_nil_r. cbn.
      split_and!; first [done | in_trace | by left | by (intros ? [=])].
  - rewrite rerank_eq. step_facts.
  - rewrite synthesize_eq. step_facts.
Qed.

(** ** The invariant of a run *)

Lemma justified_mono ev (h : list fired) f t :
  justified ev h t -> justified ev (h ++ [f]) t.
Proof.
  destruct t; cbn; [done | done | |].
  - intros H. apply elem_of_app. by left.
  - intros [ns H]. exists ns. apply elem_of_app. by left.
Qed.

Lemma elem_executed s f :
  f ∈ rs_history s -> task_name (f_task f) ∈ executed s.
Proof. intros H. unfold executed. apply list_elem_of_fmap. eauto. Qed.

(** A step of the chain is enabled or executed only after the step before
    it in the chain has executed. *)
Lemma chain_before ev s n :
  run_inv ev s -> n ∈ executed s ++ enabled s ->
  (n = Rerank -> Retrieve ∈ executed s) /\
  (n = Synthesize -> Rerank ∈ executed s).
Proof.
  intros I Hn.
  assert (exists t, task_name t = n /\ justified ev (rs_history s) t)
    as (t & <- & Hj).
  { apply elem_of_app in Hn as [Hn|Hn].
    - apply list_elem_of_fmap in Hn as (f & -> & Hf).
      exists (f_task f). split; [done|]. by apply (inv_fired _ _ I).
    - apply list_elem_of_fmap in Hn as (t & -> & Ht).
      exists t. split; [done|]. by apply (inv_pending _ _ I). }
  split; intros E; destruct t; try discriminate; cbn in Hj.
  - by apply elem_executed in Hj.
  - destruct Hj as [ns Hj]. by apply elem_executed in Hj.
Qed.

Lemma chain_query ev s t :
  run_inv ev s -> justified ev (rs_history s) t ->
  task_name t = Rerank \/ task_name t = Synthesize ->
  ctx (rs_world s) !! "query" = Some (ev_get ev "query").
Proof.
  intros I Hj [E|E]; destruct t; try discriminate; cbn in Hj.
  - by apply (inv_query _ _ I) in Hj.
  - destruct Hj as [ns Hj]. apply (inv_fired _ _ I) in Hj. cbn in Hj.
    by apply (inv_query _ _ I) in Hj.
Qed.

Lemma inv_init ev : run_inv ev (init ev).
Proof.
  split; cbn.
  - apply NoDup_cons. split; [|apply NoDup_singleton].
    intros H. by apply list_elem_of_singleton in H.
  - intros t Ht. apply elem_of_cons in Ht as [->|Ht]; [done|].
    apply list_elem_of_singleton in Ht as ->. done.
  - intros f Hf. by apply elem_of_nil in Hf.
  - intros f Hf. by apply elem_of_nil in Hf.
  - intros f r Hf. by apply elem_of_nil in Hf.
  - intros ns Hf. by apply elem_of_nil in Hf.
  - intros k v Hf. by apply elem_of_nil in Hf.
  - intros k v Hf. by apply elem_of_nil in Hf.
Qed.

Lemma fire_fields t rest s out w' :
  run_task t (rs_world s) = (out, w') ->
  fire t rest s =
    {| rs_world := w';
       rs_pending := pending_after out rest;
       rs_history := rs_history s ++ [{| f_task := t; f_out := out |}];
       rs_result := result_after out (rs_result s) |}.
Proof.
  intros H. unfold fire. rewrite H. by destruct out as [[]| |].
Qed.

(** Case analysis on what a step may hand back. *)
Ltac shape_inv H :=
  cbn in H;
  repeat match type of H with
         | _ \/ _ => destruct H as [H|H]
         | ex _ => destruct H as [? H]
         end;
  try discriminate H.

Lemma fired_names_perm (ex : list step_name) (l1 l2 : list task) t :
  (ex ++ [task_name t]) ++ (task_name <$> l1 ++ l2)
  ≡ₚ ex ++ (task_name <$> l1 ++ t :: l2).
Proof.
  rewrite !fmap_app, fmap_cons, <- app_assoc. f_equiv. cbn.
  apply Permutation_middle.
Qed.

(** The step that follows in the chain is neither pending nor executed
    while its predecessor is still pending. *)
Lemma successor_fresh ev s l1 t l2 m :
  run_inv ev s -> rs_pending s = l1 ++ t :: l2 ->
  (task_name t = Retrieve /\ m = Rerank) \/
  (task_name t = Rerank /\ m = Synthesize) ->
  m ∉ (executed s ++ [task_name t]) ++ (task_name <$> l1 ++ l2).
Proof.
  intros I Hp Hm Hin. rewrite fired_names_perm in Hin.
  assert (Hin' : m ∈ executed s ++ enabled s) by (unfold enabled; by rewrite Hp).
  pose proof (inv_nodup _ _ I) as Hnd.
  apply NoDup_app in Hnd as (_ & Hdisj & _).
  assert (Hen : task_name t ∈ enabled s).
  { unfold enabled. rewrite Hp. apply list_elem_of_fmap. exists t.
    split; [done|]. apply elem_of_app. right. by left. }
  destruct (chain_before ev s m I Hin') as [HR HS].
  destruct Hm as [[Et ->]|[Et ->]]; rewrite Et in Hen.
  - by apply (Hdisj Retrieve); [apply HR|].
  - by apply (Hdisj Rerank); [apply HS|].
Qed.

Lemma inv_step ev s s' : run_inv ev s -> wf_step s s' -> run_inv ev s'.
Proof.
  intros I Hs. destruct Hs as [s l1 t l2 Hp].
  assert (Hin : t ∈ rs_pending s).
  { rewrite Hp. apply elem_of_app. right. by left. }
  assert (Hjt : justified ev (rs_history s) t) by by apply (inv_pending _ _ I).
  assert (Hrest : forall t0, t0 ∈ l1 ++ l2 -> t0 ∈ rs_pending s).
  { intros t0 H0. rewrite Hp. apply elem_of_app in H0 as [H0|H0];
      apply elem_of_app; [by left | right; by right]. }
  destruct (run_task_summary ev (rs_history s) (rs_world s) t Hjt)
    as (out & w' & delta & Hrun & Htr & Hshape & Hctx & Hq & Hw & Hr).
  rewrite (fire_fields _ _ _ _ _ Hrun).
  set (f := {| f_task := t; f_out := out |}).
  assert (Hbase : NoDup ((executed s ++ [task_name t]) ++
                          (task_name <$> l1 ++ l2))).
  { rewrite fired_names_perm, <- Hp. apply (inv_nodup _ _ I). }
  split; cbn.
  - (* no step twice *)
    rewrite fmap_app. cbn. fold (executed s).
    destruct out as [[kw|ns|ns|r]| |x]; cbn.
    + destruct t; shape_inv Hshape.
    + rewrite fmap_app, app_assoc. apply NoDup_app. split; [done|].
      split; [|apply NoDup_singleton].
      intros m Hm Hm'. apply list_elem_of_singleton in Hm' as ->.
      revert Hm. apply (successor_fresh ev s l1 t l2); [done..|].
      left. destruct t; shape_inv Hshape. done.
    + rewrite fmap_app, app_assoc. apply NoDup_app. split; [done|].
      split; [|apply NoDup_singleton].
      intros m Hm Hm'. apply list_elem_of_singleton in Hm' as ->.
      revert Hm. apply (successor_fresh ev s l1 t l2); [done..|].
      right. destruct t; shape_inv Hshape. done.
    + rewrite app_nil_r. by apply NoDup_app in Hbase as (? & _ & _).
    + done.
    + rewrite app_nil_r. by apply NoDup_app in Hbase as (? & _ & _).
  - (* every pending delivery has its origin in the history *)
    intros t0 H0.
    destruct out as [[kw|ns|ns|r]| |x]; cbn in H0.
    + destruct t; shape_inv Hshape.
    + apply elem_of_app in H0 as [H0|H0].
      { apply justified_mono, (inv_pending _ _ I). auto. }
      apply list_elem_of_singleton in H0 as ->. cbn.
      apply elem_of_app. right. apply list_elem_of_singleton.
      destruct t; shape_inv Hshape. cbn in Hjt. by subst.
    + apply elem_of_app in H0 as [H0|H0].
      { apply justified_mono, (inv_pending _ _ I). auto. }
      apply list_elem_of_singleton in H0 as ->. cbn.
      destruct t as [| |ns'|]; shape_inv Hshape.
      exists ns'. apply elem_of_app. right. by apply list_elem_of_singleton.
    + by apply elem_of_nil in H0.
    + apply justified_mono, (inv_pending _ _ I). auto.
    + by apply elem_of_nil in H0.
  - intros f0 H0. apply justified_mono. apply elem_of_app in H0 as [H0|H0].
    + by apply (inv_fired _ _ I).
    + by apply list_elem_of_singleton in H0 as ->.
  - intros f0 H0. apply elem_of_app in H0 as [H0|H0].
    + by apply (inv_out _ _ I).
    + by apply list_elem_of_singleton in H0 as ->.
  - intros f0 r H0 E. apply elem_of_app in H0 as [H0|H0].
    + destruct (inv_stop _ _ I _ _ H0 E) as [_ Hnil].
      rewrite Hp in Hnil. by destruct l1.
    + apply list_elem_of_singleton in H0 as ->. cbn in E. by rewrite E.
  - intros ns H0. apply elem_of_app in H0 as [H0|H0].
    + pose proof (inv_query _ _ I _ H0) as Hold.
      destruct Hctx as [->|[_ ->]]; [done | apply lookup_insert_eq].
    + apply list_elem_of_singleton in H0. apply (Hq ns).
      unfold f in H0. congruence.
  - intros k v H0. rewrite Htr in H0. unfold writes in H0.
    rewrite omap_app in H0. rewrite fmap_app.
    apply elem_of_app in H0 as [H0|H0].
    + destruct (inv_writes _ _ I _ _ H0) as (-> & -> & HR).
      split_and!; [done..|]. apply elem_of_app. by left.
    + destruct (Hw _ _ H0) as (-> & -> & HR).
      split_and!; [done..|]. apply elem_of_app. right. cbn.
      rewrite HR. by left.
  - intros k v H0. rewrite Htr in H0. unfold reads in H0.
    rewrite omap_app in H0. apply elem_of_app in H0 as [H0|H0].
    + by apply (inv_reads _ _ I).
    + destruct (Hr _ _ H0) as (-> & -> & Hn).
      by rewrite (chain_query ev s t I Hjt Hn).
Qed.

Lemma reachable_inv ev s : reachable ev s -> run_inv ev s.
Proof.
  unfold reachable. intros H.
  eapply (rtc_ind_r (fun s0 => run_inv ev s0)); [apply inv_init | | exact H].
  intros y z _ Hyz IH. by eapply inv_step.
Qed.

Lemma missing_falsy ev key : missing ev key -> truthy (ev_get ev key) = false.
Proof. intros [H|H]; [|done]. unfold ev_get. by rewrite H. Qed.

(** ** The schedule that serves deliveries in order *)

Lemma run_loop_reachable fuel s : rtc wf_step s (run_loop fuel s).
Proof.
  revert s. induction fuel as [|fuel IH]; intros s; cbn; [done|].
  destruct (rs_pending s) as [|t rest] eqn:Hp; [done|].
  eapply rtc_l; [|apply IH]. by apply (wf_fire s [] t rest).
Qed.

Lemma run_reachable ev : reachable ev (run ev).
Proof. apply run_loop_reachable. Qed.

Lemma run_loop_count fuel s :
  rs_pending (run_loop fuel s) = [] \/
  length (rs_history (run_loop fuel s)) = length (rs_history s) + fuel.
Proof.
  revert s. induction fuel as [|fuel IH]; intros s; cbn; [right; lia|].
  destruct (rs_pending s) as [|t rest] eqn:Hp; [by left|].
  destruct (IH (fire t rest s)) as [H|H]; [by left|right].
  rewrite H. destruct (run_task t (rs_world s)) as [out w'] eqn:Hrun.
  rewrite (fire_fields _ _ _ _ _ Hrun). cbn. rewrite length_app. cbn. lia.
Qed.

Lemma NoDup_step_names (l : list step_name) : NoDup l -> length l <= 4.
Proof.
  intros H.
  assert (Hsub : l ⊆ [Ingest; Retrieve; Rerank; Synthesize]).
  { intros n _. destruct n; repeat constructor. }
  apply (submseteq_length l [Ingest; Retrieve; Rerank; Synthesize]).
  by apply NoDup_submseteq.
Qed.

Lemma executed_at_most_four ev s :
  reachable ev s -> NoDup (executed s) /\ length (executed s) <= 4.
Proof.
  intros H. apply reachable_inv in H. pose proof (inv_nodup _ _ H) as Hnd.
  apply NoDup_app in Hnd as (Hnd & _ & _). split; [done|].
  by apply NoDup_step_names.
Qed.

(** Four rounds are enough: the run always comes to an end. *)
Lemma run_completes ev : rs_pending (run ev) = [].
Proof.
  destruct (run_loop_count 4 (init ev)) as [H|H]; [done|].
  destruct (rs_pending (run ev)) as [|t rest] eqn:Hp; [done|]. exfalso.
  assert (Hr : reachable ev (fire t rest (run ev))).
  { eapply rtc_r; [apply run_reachable|]. by apply (wf_fire _ [] t rest). }
  apply executed_at_most_four in Hr as [_ Hr]. revert Hr.
  destruct (run_task t (rs_world (run ev))) as [out w'] eqn:Hrun.
  rewrite (fire_fields _ _ _ _ _ Hrun). unfold executed. cbn [rs_history].
  rewrite length_fmap, length_app. unfold run. rewrite H. cbn. lia.
Qed.

(** ** [main], in closed form *)

Lemma main_result_eq :
  main_result =
    Some (VResponse
      (asynthesize summarizer_used (VStr the_question)
         (postprocess_nodes ranker_used
            (aretrieve
               (from_documents (load_data (VStr "docs")) embed_model_used)
               2 (VStr the_question))
            (VStr the_question)))).
Proof. reflexivity. Qed.

(** With a streaming summarizer, [main] has chunks to print. *)
Lemma main_prints_a_stream :
  streaming_contract -> exists gen, main_chunks = Some gen.
Proof.
  intros Hs. unfold main_chunks. rewrite main_result_eq.
  specialize (Hs summarizer_used (VStr the_question)
    (postprocess_nodes ranker_used
       (aretrieve (from_documents (load_data (VStr "docs")) embed_model_used)
          2 (VStr the_question))
       (VStr the_question)) eq_refl).
  destruct (asynthesize _ _ _); [discriminate Hs | by eexists].
Qed.

(** ** The steps, as the specification states them *)

(** C1: a step returns nothing when its required input is missing. When
    [dirname] is absent or falsy, [ingest] returns None and performs no
    effect at all (no directory is read, no index is built, no StopEvent);
    when [query] is absent or falsy, [retrieve] returns None, emits no
    RetrieverEvent and leaves context and trace untouched. *)
Theorem missing_input_returns_none ev w :
  (missing ev "dirname" -> ingest ev w = (ReturnNone, w)) /\
  (missing ev "query" -> retrieve ev w = (ReturnNone, w)).
Proof.
  split; intros H%missing_falsy.
  - by apply ingest_missing.
  - by apply retrieve_missing.
Qed.

(** C4 (as the code has it): with a non-empty [query] and an index object
    in the StartEvent, [retrieve] asks the index for the nearest chunks
    with K fixed at 2 and emits a RetrieverEvent whose nodes are exactly
    what the retriever returned; a retriever that honours
    [similarity_top_k] hence yields at most 2.  The index has to be an
    index: a value that is merely not None does not do. *)
Theorem retrieve_fetches_top_2 ev w (idx : Index) :
  truthy (ev_get ev "query") = true ->
  ev_get ev "index" = VIndex idx ->
  top_k_contract ->
  exists nodes,
    nodes = aretrieve idx 2 (ev_get ev "query") /\
    fst (retrieve ev w) = Emit (RetrieverEvent nodes) /\
    trace (snd (retrieve ev w)) =
      trace w ++
        [Print [Lit "Query the database with: "; Fmt (ev_get ev "query")];
         CtxSet "query" (ev_get ev "query");
         ARetrieve idx 2 (ev_get ev "query");
         Print [Lit "Retrieved "; Fmt (VInt (Z.of_nat (length nodes)));
                Lit " nodes."]] /\
    length nodes <= 2.
Proof.
  intros Hq Hi Hk. eexists. split; [reflexivity|].
  rewrite (retrieve_with_index _ _ _ Hq Hi). cbn. split_and!; [done..|].
  apply Hk.
Qed.

(** C5: for every RetrieverEvent, [rerank] hands the retrieved nodes and
    the query stored in the context to the LLM reranker built with
    [top_n = 3] and [choice_batch_size = 5], and emits a RerankEvent whose
    nodes are exactly the reranker's output: at most 3 of the nodes it was
    given, reordered. *)
Theorem rerank_keeps_top_3 (nodes : list Node) w :
  rerank_contract ->
  exists new_nodes,
    new_nodes =
      postprocess_nodes ranker_used nodes (default VNone (ctx w !! "query")) /\
    top_n ranker_used = 3 /\
    choice_batch_size ranker_used = 5 /\
    fst (rerank nodes w) = Emit (RerankEvent new_nodes) /\
    PostprocessNodes ranker_used nodes (default VNone (ctx w !! "query"))
      ∈ trace (snd (rerank nodes w)) /\
    length new_nodes <= 3 /\
    new_nodes ⊆+ nodes.
Proof.
  intros Hc. eexists. split; [reflexivity|].
  rewrite rerank_eq. cbn.
  destruct (Hc ranker_used nodes (default VNone (ctx w !! "query")))
    as [Hlen Hsub].
  split_and!; [done..| |exact Hlen|exact Hsub].
  apply elem_of_app. right. do 3 right. by left.
Qed.

(** C6: for every StartEvent with a non-empty [dirname], [ingest] reads the
    directory, builds a vector index over the loaded documents with the
    configured embedding model, and returns it in a StopEvent; that index
    is the result of the run, under the in-order schedule and whenever the
    ingest delivery is served. *)
Theorem ingest_builds_index ev w :
  truthy (ev_get ev "dirname") = true ->
  exists index,
    index =
      from_documents (load_data (ev_get ev "dirname"))
        {| model_name := "BAAI/bge-small-en-v1.5" |} /\
    ingest ev w =
      (Emit (StopEvent (VIndex index)),
       {| ctx := ctx w;
          trace := trace w ++
            [LoadData (ev_get ev "dirname");
             FromDocuments (load_data (ev_get ev "dirname"))
               {| model_name := "BAAI/bge-small-en-v1.5" |}] |}) /\
    rs_result (run ev) = Some (Returned (VIndex index)) /\
    (forall s rest,
       rs_result (fire (TIngest ev) rest s) = Some (Returned (VIndex index))).
Proof.
  intros Hd. eexists. split; [reflexivity|].
  split; [by apply ingest_present|].
  assert (Hfire : forall s rest,
    rs_result (fire (TIngest ev) rest s) =
      Some (Returned (VIndex (from_documents (load_data (ev_get ev "dirname"))
                                embed_model_used))) /\
    rs_pending (fire (TIngest ev) rest s) = []).
  { intros s rest.
    by rewrite (fire_fields (TIngest ev) rest s _ _
                  (ingest_present ev (rs_world s) Hd)). }
  split; [|intros s rest; apply Hfire].
  unfold run. cbn [run_loop init dispatch rs_pending].
  destruct (Hfire (init ev) [TRetrieve ev]) as [Hres Hpen].
  cbn [init dispatch] in Hres, Hpen. by rewrite Hpen.
Qed.

(** C7: for every RerankEvent, [synthesize] calls the summarizer, built in
    streaming mode, on the query stored in the context and the reranked
    nodes, and returns a StopEvent holding the response object; with a
    streaming summarizer that object is a token stream, not a completed
    text. *)
Theorem synthesize_streams (nodes : list Node) w :
  streaming_contract ->
  exists response,
    response =
      asynthesize summarizer_used (default VNone (ctx w !! "query")) nodes /\
    streaming summarizer_used = true /\
    synthesize nodes w =
      (Emit (StopEvent (VResponse response)),
       {| ctx := ctx w;
          trace := trace w ++
            [CtxGet "query" (default VNone (ctx w !! "query"));
             ASynthesize summarizer_used
               (default VNone (ctx w !! "query")) nodes] |}) /\
    is_streamed response = true.
Proof.
  intros Hs. eexists. split; [reflexivity|]. split; [done|].
  split; [apply synthesize_eq|]. by apply Hs.
Qed.

(** ** A run whose query comes without an index *)




(** C9: only [retrieve] writes to the workflow context, and only the key
    [query]: [ingest], [rerank] and [synthesize] leave it as it was.  In
    every reachable state of a run, whatever was written or read is the
    [query] of the run's StartEvent, written by [retrieve]; so the value
    [rerank] and [synthesize] read is the one [retrieve] stored. *)
Theorem only_retrieve_writes_query :
  (forall ev w,
     ctx (snd (ingest ev w)) = ctx w /\
     writes (trace (snd (ingest ev w))) = writes (trace w)) /\
  (forall (nodes : list Node) w,
     ctx (snd (rerank nodes w)) = ctx w /\
     writes (trace (snd (rerank nodes w))) = writes (trace w)) /\
  (forall (nodes : list Node) w,
     ctx (snd (synthesize nodes w)) = ctx w /\
     writes (trace (snd (synthesize nodes w))) = writes (trace w)) /\
  (forall ev w,
     (ctx (snd (retrieve ev w)) = ctx w /\
      writes (trace (snd (retrieve ev w))) = writes (trace w)) \/
     (ctx (snd (retrieve ev w)) = <[ "query" := ev_get ev "query" ]> (ctx w) /\
      writes (trace (snd (retrieve ev w))) =
        writes (trace w) ++ [("query", ev_get ev "query")])) /\
  (forall ev s, reachable ev s ->
     (forall k v, (k, v) ∈ writes (trace (rs_world s)) ->
        k = "query" /\ v = ev_get ev "query" /\ Retrieve ∈ executed s) /\
     (forall k v, (k, v) ∈ reads (trace (rs_world s)) ->
        k = "query" /\ v = ev_get ev "query") /\
     (Rerank ∈ enabled s \/ Synthesize ∈ enabled s ->
        ctx (rs_world s) !! "query" = Some (ev_get ev "query"))).
Proof.
  split_and!.
  - intros ev w. destruct (truthy (ev_get ev "dirname")) eqn:Hd.
    + rewrite (ingest_present _ _ Hd). cbn. split; [done|].
      unfold writes. rewrite omap_app. cbn. by rewrite app_nil_r.
    + by rewrite (ingest_missing _ _ Hd).
  - intros nodes w. rewrite rerank_eq. cbn. split; [done|].
    unfold writes. rewrite omap_app. cbn. by rewrite app_nil_r.
  - intros nodes w. rewrite synthesize_eq. cbn. split; [done|].
    unfold writes. rewrite omap_app. cbn. by rewrite app_nil_r.
  - intros ev w. destruct (truthy (ev_get ev "query")) eqn:Hq.
    + right. destruct (ev_get ev "index") eqn:Hi.
      2-4,6-7: rewrite retrieve_bad_index by (rewrite ?Hi; congruence);
        cbn; (split; [done|]); unfold writes; by rewrite omap_app.
      * rewrite (retrieve_no_index _ _ Hq Hi). cbn. split; [done|].
        unfold writes. by rewrite omap_app.
      * rewrite (retrieve_with_index _ _ _ Hq Hi). cbn. split; [done|].
        unfold writes. by rewrite omap_app.
    + left. by rewrite (retrieve_missing _ _ Hq).
  - intros ev s Hs. apply reachable_inv in Hs.
    split_and!; [apply (inv_writes _ _ Hs) | apply (inv_reads _ _ Hs) |].
    intros Hen.
    assert (exists t, t ∈ rs_pending s /\
              (task_name t = Rerank \/ task_name t = Synthesize))
      as (t & Ht & Hn).
    { destruct Hen as [Hen|Hen];
        apply list_elem_of_fmap in Hen as (t & E & Ht); exists t; auto. }
    apply (chain_query ev s t); [done | by apply (inv_pending _ _ Hs) | done].
Qed.

(** ** The shape of a run *)

Lemma at_most_two (l : list step_name) :
  NoDup l ->
  (forall n m, n ∈ l -> m ∈ l -> n <> Ingest -> m <> Ingest -> n = m) ->
  length l <= 2.
Proof.
  intros Hnd Hpair. destruct l as [|a [|b [|c l]]]; cbn; [lia..|]. exfalso.
  apply NoDup_cons in Hnd as [Ha Hnd]. apply NoDup_cons in Hnd as [Hb _].
  assert (Hab : a <> b) by (intros ->; apply Ha; by left).
  assert (Hac : a <> c) by (intros ->; apply Ha; right; by left).
  assert (Hbc : b <> c) by (intros ->; apply Hb; by left).
  assert (Ia : a ∈ a :: b :: c :: l) by by left.
  assert (Ib : b ∈ a :: b :: c :: l) by (right; by left).
  assert (Ic : c ∈ a :: b :: c :: l) by (right; right; by left).
  destruct (decide (a = Ingest)) as [->|Na].
  - apply Hbc. apply Hpair; [done | done | congruence | congruence].
  - destruct (decide (b = Ingest)) as [->|Nb].
    + apply Hac. apply Hpair; [done | done | done | congruence].
    + apply Hab. by apply Hpair.
Qed.

(** C2 (as the code has it): both [ingest] and [retrieve] accept the
    StartEvent, so the first state of every run has two steps enabled,
    [ingest] and [retrieve].  In every state a run can reach, whatever the
    order in which deliveries are served: no step has executed twice, so a
    run takes at most four steps, without retries or cycles; the steps
    other than [ingest] are enabled one at a time, along the chain
    retrieve, rerank, synthesize ([rerank] only once [retrieve] has
    executed, [synthesize] only once [rerank] and [retrieve] have); and at
    most two steps are enabled at once, one of which is then [ingest]. *)
Theorem chain_is_linear_after_start ev s :
  reachable ev s ->
  enabled (init ev) = [Ingest; Retrieve] /\
  NoDup (executed s) /\
  length (executed s) <= 4 /\
  (forall n m, n ∈ enabled s -> m ∈ enabled s ->
     n <> Ingest -> m <> Ingest -> n = m) /\
  (Rerank ∈ enabled s -> Retrieve ∈ executed s) /\
  (Synthesize ∈ enabled s -> Rerank ∈ executed s /\ Retrieve ∈ executed s) /\
  length (enabled s) <= 2 /\
  (forall n m, n ∈ enabled s -> m ∈ enabled s -> n <> m ->
     n = Ingest \/ m = Ingest).
Proof.
  intros Hs. split; [done|].
  destruct (executed_at_most_four ev s Hs) as [Hnd Hlen].
  apply reachable_inv in Hs.
  assert (Hpair : forall n m, n ∈ enabled s -> m ∈ enabled s ->
            n <> Ingest -> m <> Ingest -> n = m).
  { assert (Hex : forall n, n ∈ enabled s -> n ∉ executed s).
    { intros n Hn Hn'. pose proof (inv_nodup _ _ Hs) as H.
      apply NoDup_app in H as (_ & H & _). by apply (H n). }
    assert (Hb : forall n, n ∈ enabled s ->
              (n = Rerank -> Retrieve ∈ executed s) /\
              (n = Synthesize -> Rerank ∈ executed s)).
    { intros n Hn. apply (chain_before ev s n Hs).
      apply elem_of_app. by right. }
    assert (Hrr : Rerank ∈ executed s -> Retrieve ∈ executed s).
    { intros H. apply (chain_before ev s Rerank Hs); [|done].
      apply elem_of_app. by left. }
    intros n m Hn Hm Hni Hmi.
    destruct (Hb n Hn) as [Hn1 Hn2], (Hb m Hm) as [Hm1 Hm2].
    destruct n, m; try done; exfalso;
      first [ by apply (Hex Retrieve); auto
            | by apply (Hex Rerank); auto ]. }
  split_and!; [done | done | exact Hpair | | | |].
  - intros H. apply (chain_before ev s Rerank Hs); [|done].
    apply elem_of_app. by right.
  - intros H.
    assert (Hk : Rerank ∈ executed s).
    { apply (chain_before ev s Synthesize Hs); [|done].
      apply elem_of_app. by right. }
    split; [done|]. apply (chain_before ev s Rerank Hs); [|done].
    apply elem_of_app. by left.
  - apply at_most_two; [|exact Hpair].
    pose proof (inv_nodup _ _ Hs) as H. by apply NoDup_app in H as (_ & _ & H).
  - intros n m Hn Hm Hnm.
    destruct (decide (n = Ingest)) as [|Nn]; [by left|].
    destruct (decide (m = Ingest)) as [|Nm]; [by right|].
    by destruct (Hnm (Hpair n m Hn Hm Nn Nm)).
Qed.

(** C3: the steps are chained by their events.  A RetrieverEvent goes to
    [rerank] and a RerankEvent to [synthesize]; in every reachable state
    the nodes [rerank] is given are the ones [retrieve] emitted in the same
    run, the nodes [synthesize] is given are the ones [rerank] emitted, and
    once [synthesize] has executed the result of the run is the value of
    its StopEvent.  In [main] the index built by [ingest] in the first run
    is the one [retrieve] queries in the second, whose result is the
    response synthesized from the reranked retrieved nodes. *)
Theorem pipeline_is_chained :
  (forall nodes : list Node, dispatch (RetrieverEvent nodes) = [TRerank nodes]) /\
  (forall nodes : list Node,
     dispatch (RerankEvent nodes) = [TSynthesize nodes]) /\
  (forall ev s, reachable ev s ->
     (forall nodes,
        TRerank nodes ∈ rs_pending s \/
        (exists out, {| f_task := TRerank nodes; f_out := out |}
                       ∈ rs_history s) ->
        {| f_task := TRetrieve ev; f_out := Emit (RetrieverEvent nodes) |}
          ∈ rs_history s) /\
     (forall nodes,
        TSynthesize nodes ∈ rs_pending s \/
        (exists out, {| f_task := TSynthesize nodes; f_out := out |}
                       ∈ rs_history s) ->
        exists nodes',
          {| f_task := TRerank nodes'; f_out := Emit (RerankEvent nodes) |}
            ∈ rs_history s) /\
     (forall nodes out,
        {| f_task := TSynthesize nodes; f_out := out |} ∈ rs_history s ->
        exists r, out = Emit (StopEvent (VResponse r)) /\
                  rs_result s = Some (Returned (VResponse r)))) /\
  main_result =
    Some (VResponse
      (asynthesize summarizer_used (VStr the_question)
         (postprocess_nodes ranker_used
            (aretrieve
               (from_documents (load_data (VStr "docs")) embed_model_used)
               2 (VStr the_question))
            (VStr the_question)))).
Proof.
  split_and!; [done | done | | apply main_result_eq].
  intros ev s Hs. apply reachable_inv in Hs. split_and!.
  - intros nodes [H|[out H]].
    + by apply (inv_pending _ _ Hs) in H.
    + by apply (inv_fired _ _ Hs) in H.
  - intros nodes [H|[out H]].
    + by apply (inv_pending _ _ Hs) in H.
    + by apply (inv_fired _ _ Hs) in H.
  - intros nodes out H. destruct (inv_out _ _ Hs _ H) as [r Hr].
    cbn in Hr. exists r. split; [done|].
    by destruct (inv_stop _ _ Hs _ _ H Hr).
Qed.

(** * Further properties of the code *)

(** ** Induction over the states a run can reach *)

Lemma reachable_ind_fire ev (P : run_state -> Prop) :
  P (init ev) ->
  (forall s l1 t l2,
     reachable ev s -> P s -> rs_pending s = l1 ++ t :: l2 ->
     P (fire t (l1 ++ l2) s)) ->
  forall s, reachable ev s -> P s.
Proof.
  intros H0 Hstep s Hr.
  cut (reachable ev s /\ P s); [by intros [_ ?]|].
  eapply (rtc_ind_r (fun s0 => reachable ev s0 /\ P s0)); [ | | exact Hr].
  - split; [apply rtc_refl | done].
  - intros y z _ Hyz [Hy HP]. split.
    + eapply rtc_r; [exact Hy | exact Hyz].
    + destruct Hyz as [y l1 t l2 Hp]. by apply Hstep.
Qed.

Lemma fire_at t rest s w out w' :
  rs_world s = w ->
  run_task t w = (out, w') ->
  fire t rest s =
    {| rs_world := w';
       rs_pending := pending_after out rest;
       rs_history := rs_history s ++ [{| f_task := t; f_out := out |}];
       rs_result := result_after out (rs_result s) |}.
Proof. intros <-. apply fire_fields. Qed.

(** The ways to pick one delivery out of one or two pending ones. *)
Lemma pick_one (a t : task) (l1 l2 : list task) :
  [a] = l1 ++ t :: l2 -> l1 = [] /\ t = a /\ l2 = [].
Proof.
  destruct l1 as [|x l1]; cbn; intros H; injection H as -> H.
  - by subst.
  - by destruct l1.
Qed.

Lemma pick_two (a b t : task) (l1 l2 : list task) :
  [a; b] = l1 ++ t :: l2 ->
  (l1 = [] /\ t = a /\ l2 = [b]) \/ (l1 = [a] /\ t = b /\ l2 = []).
Proof.
  destruct l1 as [|x l1]; cbn; intros H; injection H as -> H.
  - left. by subst.
  - right. by apply pick_one in H as (-> & -> & ->).
Qed.

Lemma nsteps_history n s s' :
  nsteps wf_step n s s' ->
  length (rs_history s') = length (rs_history s) + n.
Proof.
  induction 1 as [|n x y z Hxy _ IH]; [lia|].
  rewrite IH. destruct Hxy as [x l1 t l2 Hp].
  destruct (run_task t (rs_world x)) as [out w'] eqn:Hrun.
  rewrite (fire_fields _ _ _ _ _ Hrun). cbn. rewrite length_app. cbn. lia.
Qed.

(** X1: a run always comes to an end.  Whatever the order in which the
    deliveries are served, no execution from the start of a run is longer
    than four steps; and the in-order schedule, which serves at most four
    deliveries, ends with nothing left pending. *)
Theorem every_run_terminates ev :
  rs_pending (run ev) = [] /\
  (forall n s, nsteps wf_step n (init ev) s -> n <= 4).
Proof.
  split; [apply run_completes|].
  intros n s Hn. pose proof (nsteps_history _ _ _ Hn) as Hlen.
  assert (Hr : reachable ev s) by (eapply rtc_nsteps_2; exact Hn).
  apply executed_at_most_four in Hr as [_ Hr].
  unfold executed in Hr. rewrite length_fmap in Hr. cbn in Hlen. lia.
Qed.

(** X2: a StartEvent with neither a [dirname] nor a [query] makes a run
    that does nothing: in every state it can reach there is no result, the
    context is empty and no effect has been performed; the in-order
    schedule ends in such a state with nothing pending. *)
Theorem run_with_nothing_to_do ev :
  missing ev "dirname" -> missing ev "query" ->
  (forall s, reachable ev s ->
     rs_result s = None /\ rs_world s = {| ctx := ∅; trace := [] |}) /\
  rs_pending (run ev) = [] /\
  executed (run ev) = [Ingest; Retrieve].
Proof.
  intros Hd%missing_falsy Hq%missing_falsy.
  assert (Hall : forall s, reachable ev s ->
    (rs_result s = None /\ rs_world s = {| ctx := ∅; trace := [] |}) /\
    forall t, t ∈ rs_pending s -> t = TIngest ev \/ t = TRetrieve ev).
  { apply reachable_ind_fire.
    - split; [done|]. cbn. intros t Ht.
      apply elem_of_cons in Ht as [->|Ht]; [by left|].
      apply list_elem_of_singleton in Ht as ->. by right.
    - intros s l1 t l2 _ [[Hres Hw] Hpen] Hp.
      assert (Hrun : run_task t (rs_world s) = (ReturnNone, rs_world s)).
      { destruct (Hpen t) as [->| ->].
        - rewrite Hp. apply elem_of_app. right. by left.
        - by apply ingest_missing.
        - by apply retrieve_missing. }
      rewrite (fire_fields _ _ _ _ _ Hrun). cbn. split; [done|].
      intros t0 H0. apply Hpen. rewrite Hp.
      apply elem_of_app in H0 as [H0|H0]; apply elem_of_app;
        [by left | right; by right]. }
  split; [intros s Hs; by apply Hall|]. split; [apply run_completes|].
  unfold run. cbn [run_loop init dispatch rs_pending].
  rewrite (fire_fields (TIngest ev) _ _ _ _ (ingest_missing ev _ Hd)).
  cbn [pending_after rs_pending rs_world].
  rewrite (fire_fields (TRetrieve ev) _ _ _ _ (retrieve_missing ev _ Hq)).
  reflexivity.
Qed.

(** ** Runs whose outcome does not depend on the schedule *)

(** Closes a goal that lists the phases of a run as a disjunction. *)
Ltac pick_phase :=
  first [ by (split_and!; first [done | by left | by right])
        | left; by (split_and!; first [done | by left | by right])
        | right; pick_phase ].

(** X3: a run whose StartEvent has a [dirname] and no [query] ends in the
    same way under every schedule: once nothing is pending, the result is
    the index built from [dirname], the context is still empty, and the
    only effects are the directory read and the index build. *)
Theorem ingest_run_outcome ev s :
  truthy (ev_get ev "dirname") = true ->
  missing ev "query" ->
  reachable ev s ->
  rs_pending s = [] ->
  rs_result s = Some (Returned (VIndex (built_index ev))) /\
  rs_world s = {| ctx := ∅; trace := ingest_trace ev |}.
Proof.
  intros Hd Hq%missing_falsy Hs.
  cut ((rs_result s = None /\ rs_world s = {| ctx := ∅; trace := [] |} /\
        (rs_pending s = [TIngest ev; TRetrieve ev] \/
         rs_pending s = [TIngest ev])) \/
       (rs_result s = Some (Returned (VIndex (built_index ev))) /\
        rs_world s = {| ctx := ∅; trace := ingest_trace ev |} /\
        rs_pending s = [])).
  { intros [(_ & _ & [Hp|Hp])|(? & ? & _)] Hnil; [congruence..|done]. }
  revert s Hs. apply reachable_ind_fire; [pick_phase|].
  intros s l1 t l2 _ [(Hres & Hw & Hpen)|(_ & _ & Hpen)] Hp;
    [|rewrite Hpen in Hp; by destruct l1].
  destruct Hpen as [Hpen|Hpen]; rewrite Hpen in Hp.
  - apply pick_two in Hp as [(-> & -> & ->)|(-> & -> & ->)].
    + rewrite (fire_at (TIngest ev) _ _ _ _ _ Hw (ingest_present ev _ Hd)).
      cbn. pick_phase.
    + rewrite (fire_at (TRetrieve ev) _ _ _ _ _ Hw (retrieve_missing ev _ Hq)).
      rewrite Hres. cbn. pick_phase.
  - apply pick_one in Hp as (-> & -> & ->).
    rewrite (fire_at (TIngest ev) _ _ _ _ _ Hw (ingest_present ev _ Hd)).
    cbn. pick_phase.
Qed.

Lemma retrieve_first ev (idx : Index) :
  truthy (ev_get ev "query") = true ->
  ev_get ev "index" = VIndex idx ->
  retrieve ev {| ctx := ∅; trace := [] |} =
    (Emit (RetrieverEvent (retrieved ev idx)), query_world ev idx 4).
Proof.
  intros Hq Hi. rewrite (retrieve_with_index _ _ _ Hq Hi).
  unfold query_world. cbn. by rewrite insert_empty.
Qed.

Lemma rerank_second ev (idx : Index) :
  rerank (retrieved ev idx) (query_world ev idx 4) =
    (Emit (RerankEvent (reranked ev idx)), query_world ev idx 10).
Proof.
  rewrite rerank_eq. unfold query_world. cbn [ctx trace].
  by rewrite lookup_singleton_eq.
Qed.

Lemma synthesize_third ev (idx : Index) :
  synthesize (reranked ev idx) (query_world ev idx 10) =
    (Emit (StopEvent (VResponse (answer ev idx))), query_world ev idx 12).
Proof.
  rewrite synthesize_eq. unfold query_world. cbn [ctx trace].
  by rewrite lookup_singleton_eq.
Qed.

(** X4: a run whose StartEvent has a [query] and an index, and no
    [dirname], ends in the same way under every schedule: once nothing is
    pending, the result is the response synthesized from the reranked
    retrieved nodes, the context holds the query, and the effects are
    those of [retrieve], [rerank] and [synthesize], in this order. *)
Theorem query_run_outcome ev (idx : Index) s :
  missing ev "dirname" ->
  truthy (ev_get ev "query") = true ->
  ev_get ev "index" = VIndex idx ->
  reachable ev s ->
  rs_pending s = [] ->
  rs_result s = Some (Returned (VResponse (answer ev idx))) /\
  ctx (rs_world s) = {[ "query" := ev_get ev "query" ]} /\
  trace (rs_world s) = query_trace ev idx.
Proof.
  intros Hd%missing_falsy Hq Hi Hs.
  cut ((rs_result s = None /\ rs_world s = {| ctx := ∅; trace := [] |} /\
        (rs_pending s = [TIngest ev; TRetrieve ev] \/
         rs_pending s = [TRetrieve ev])) \/
       (rs_result s = None /\ rs_world s = query_world ev idx 4 /\
        (rs_pending s = [TIngest ev; TRerank (retrieved ev idx)] \/
         rs_pending s = [TRerank (retrieved ev idx)])) \/
       (rs_result s = None /\ rs_world s = query_world ev idx 10 /\
        (rs_pending s = [TIngest ev; TSynthesize (reranked ev idx)] \/
         rs_pending s = [TSynthesize (reranked ev idx)])) \/
       (rs_result s = Some (Returned (VResponse (answer ev idx))) /\
        rs_world s = query_world ev idx 12 /\
        rs_pending s = [])).
  { intros [(_ & _ & [Hp|Hp])|[(_ & _ & [Hp|Hp])|[(_ & _ & [Hp|Hp])|
            (? & Hw & _)]]] Hnil; [congruence..|].
    rewrite Hw. done. }
  revert s Hs. apply reachable_ind_fire; [pick_phase|].
  intros s l1 t l2 _ Hph Hp.
  destruct Hph as [(Hres & Hw & Hpen)|[(Hres & Hw & Hpen)|
                   [(Hres & Hw & Hpen)|(_ & _ & Hpen)]]];
    [| | |rewrite Hpen in Hp; by destruct l1];
    (destruct Hpen as [Hpen|Hpen]; rewrite Hpen in Hp;
     [apply pick_two in Hp as [(-> & -> & ->)|(-> & -> & ->)]
     |apply pick_one in Hp as (-> & -> & ->)]);
    first
      [ rewrite (fire_at (TIngest ev) _ _ _ _ _ Hw (ingest_missing ev _ Hd))
      | rewrite (fire_at (TRetrieve ev) _ _ _ _ _ Hw
                   (retrieve_first ev idx Hq Hi))
      | rewrite (fire_at (TRerank _) _ _ _ _ _ Hw (rerank_second ev idx))
      | rewrite (fire_at (TSynthesize _) _ _ _ _ _ Hw
                   (synthesize_third ev idx)) ];
    rewrite ?Hres; cbn [pending_after result_after dispatch app];
    cbn [rs_result rs_world rs_pending]; pick_phase.
Qed.

(** What a delivery hands back does not depend on the schedule. *)
Lemma run_task_out ev s t :
  run_inv ev s -> justified ev (rs_history s) t ->
  fst (run_task t (rs_world s)) = expected_out ev t.
Proof.
  intros I Hj.
  destruct t as [ev'|ev'|nodes|nodes]; cbn [run_task expected_out].
  - cbn in Hj. subst ev'. destruct (truthy (ev_get ev "dirname")) eqn:Hd.
    + by rewrite !(ingest_present _ _ Hd).
    + by rewrite !(ingest_missing _ _ Hd).
  - cbn in Hj. subst ev'. destruct (truthy (ev_get ev "query")) eqn:Hq;
      [|by rewrite !(retrieve_missing _ _ Hq)].
    destruct (ev_get ev "index") eqn:Hi.
    2-4,6-7: by rewrite !retrieve_bad_index by (rewrite ?Hi; congruence).
    + by rewrite !(retrieve_no_index _ _ Hq Hi).
    + by rewrite !(retrieve_with_index _ _ _ Hq Hi).
  - rewrite rerank_eq. cbn [fst].
    by rewrite (chain_query ev s (TRerank nodes) I Hj (or_introl eq_refl)).
  - rewrite synthesize_eq. cbn [fst].
    by rewrite (chain_query ev s (TSynthesize nodes) I Hj (or_intror eq_refl)).
Qed.


(** ** When the index is not an index *)

(** X6: with a non-empty [query] and an [index] field that is neither None
    nor an index object, [retrieve] raises AttributeError on
    [as_retriever]; by then it has printed the query and stored it in the
    context, and it has not called the retriever.  Serving that delivery
    ends the run with the exception and cancels what is pending; without a
    [dirname], every schedule ends this way. *)
Theorem retrieve_raises_on_non_index ev w :
  truthy (ev_get ev "query") = true ->
  ev_get ev "index" <> VNone ->
  (forall idx, ev_get ev "index" <> VIndex idx) ->
  retrieve ev w =
    (Raise (AttributeError "as_retriever"),
     {| ctx := <[ "query" := ev_get ev "query" ]> (ctx w);
        trace := trace w ++
          [Print [Lit "Query the database with: "; Fmt (ev_get ev "query")];
           CtxSet "query" (ev_get ev "query")] |}) /\
  (forall s rest,
     rs_result (fire (TRetrieve ev) rest s)
       = Some (Failed (AttributeError "as_retriever")) /\
     rs_pending (fire (TRetrieve ev) rest s) = []) /\
  (missing ev "dirname" ->
   forall s, reachable ev s -> rs_pending s = [] ->
     rs_result s = Some (Failed (AttributeError "as_retriever"))).
Proof.
  intros Hq Hn Hi. split; [by apply retrieve_bad_index|]. split.
  - intros s rest.
    by rewrite (fire_fields (TRetrieve ev) _ _ _ _
                  (retrieve_bad_index ev _ Hq Hn Hi)).
  - intros Hd%missing_falsy s Hs.
    cut ((rs_result s = None /\
          (rs_pending s = [TIngest ev; TRetrieve ev] \/
           rs_pending s = [TRetrieve ev])) \/
         (rs_result s = Some (Failed (AttributeError "as_retriever")) /\
          rs_pending s = [])).
    { intros [(_ & [Hp|Hp])|(? & _)] Hnil; [congruence..|done]. }
    revert s Hs. apply reachable_ind_fire; [pick_phase|].
    intros s l1 t l2 _ [(Hres & Hpen)|(_ & Hpen)] Hp;
      [|rewrite Hpen in Hp; by destruct l1].
    destruct Hpen as [Hpen|Hpen]; rewrite Hpen in Hp;
      [apply pick_two in Hp as [(-> & -> & ->)|(-> & -> & ->)]
      |apply pick_one in Hp as (-> & -> & ->)];
      first
        [ rewrite (fire_fields (TIngest ev) _ _ _ _ (ingest_missing ev _ Hd))
        | rewrite (fire_fields (TRetrieve ev) _ _ _ _
                     (retrieve_bad_index ev _ Hq Hn Hi)) ];
      rewrite ?Hres; cbn [pending_after result_after dispatch app];
      cbn [rs_result rs_world rs_pending]; pick_phase.
Qed.

(** ** What a run can return *)

Lemma history_outputs ev s :
  reachable ev s ->
  (forall f, f ∈ rs_history s -> f_out f = expected_out ev (f_task f)) /\
  (forall r, rs_result s = Some (Returned r) ->
     exists f, f ∈ rs_history s /\ f_out f = Emit (StopEvent r)).
Proof.
  revert s. apply reachable_ind_fire; [split; [by intros f ?%elem_of_nil|done]|].
  intros s l1 t l2 Hs [IHh IHr] Hp.
  pose proof (reachable_inv _ _ Hs) as I.
  assert (Hj : justified ev (rs_history s) t).
  { apply (inv_pending _ _ I). rewrite Hp. apply elem_of_app. right. by left. }
  pose proof (run_task_out ev s t I Hj) as Hout.
  destruct (run_task t (rs_world s)) as [out w'] eqn:Hrun. cbn [fst] in Hout.
  rewrite (fire_fields _ _ _ _ _ Hrun). cbn [rs_history rs_result]. split.
  - intros f [Hf|Hf]%elem_of_app; [by apply IHh|].
    apply list_elem_of_singleton in Hf as ->. done.
  - intros r Hr.
    assert (out = Emit (StopEvent r) \/ rs_result s = Some (Returned r))
      as [->|Hold].
    { destruct out as [[kw|ns|ns|r']| |y]; cbn [result_after] in Hr;
        first [by right | by (left; congruence) | done]. }
    + exists {| f_task := t; f_out := Emit (StopEvent r) |}.
      split; [|reflexivity]. apply elem_of_app. right. by left.
    + destruct (IHr r Hold) as (f & Hf & Hfo). exists f. split; [|done].
      apply elem_of_app. by left.
Qed.

(** X8: whatever the schedule, a value returned by a run is one of two
    things: the index [ingest] built from the [dirname] of the StartEvent
    (which is then non-empty), or the response synthesized for the [query]
    of the StartEvent from the reranked top-2 nodes of its [index] (the
    query is then non-empty and the index an index object).  No other
    value, and in particular no intermediate node list, is ever
    returned. *)
Theorem run_returns_index_or_answer ev s r :
  reachable ev s ->
  rs_result s = Some (Returned r) ->
  (truthy (ev_get ev "dirname") = true /\ r = VIndex (built_index ev)) \/
  (exists idx : Index,
     truthy (ev_get ev "query") = true /\
     ev_get ev "index" = VIndex idx /\
     r = VResponse (answer ev idx)).
Proof.
  intros Hs Hr.
  pose proof (reachable_inv _ _ Hs) as I.
  destruct (history_outputs ev s Hs) as [Hh Hres].
  assert (Hretr : forall ns,
    {| f_task := TRetrieve ev; f_out := Emit (RetrieverEvent ns) |}
      ∈ rs_history s ->
    exists idx : Index, truthy (ev_get ev "query") = true /\
      ev_get ev "index" = VIndex idx /\ ns = retrieved ev idx).
  { intros ns Hf%Hh. cbn [f_out f_task expected_out] in Hf.
    destruct (truthy (ev_get ev "query")) eqn:Hq;
      [|by rewrite (retrieve_missing _ _ Hq) in Hf].
    destruct (ev_get ev "index") as [|b|z|str|idx|nds|resp] eqn:Hi.
    2-4,6-7: by rewrite retrieve_bad_index in Hf
      by (rewrite ?Hi; congruence).
    - by rewrite (retrieve_no_index _ _ Hq Hi) in Hf.
    - rewrite (retrieve_with_index _ _ _ Hq Hi) in Hf. cbn [fst] in Hf.
      exists idx. split_and!; [done..|]. unfold retrieved. congruence. }
  destruct (Hres r Hr) as (f & Hf & Hfo).
  pose proof (Hh f Hf) as Hexp. rewrite Hfo in Hexp.
  pose proof (inv_fired _ _ I f Hf) as Hj.
  destruct f as [[ev'|ev'|nodes|nodes] out]; cbn [f_task f_out] in *;
    cbn [expected_out] in Hexp.
  - left. destruct (truthy (ev_get ev "dirname")) eqn:Hd.
    + rewrite (ingest_present _ _ Hd) in Hexp. cbn [fst] in Hexp.
      split; [done|]. unfold built_index. congruence.
    + by rewrite (ingest_missing _ _ Hd) in Hexp.
  - cbn in Hj. subst ev'.
    destruct (truthy (ev_get ev "query")) eqn:Hq;
      [|by rewrite (retrieve_missing _ _ Hq) in Hexp].
    destruct (ev_get ev "index") as [|b|z|str|idx|nds|resp] eqn:Hi.
    2-4,6-7: by rewrite retrieve_bad_index in Hexp
      by (rewrite ?Hi; congruence).
    + by rewrite (retrieve_no_index _ _ Hq Hi) in Hexp.
    + by rewrite (retrieve_with_index _ _ _ Hq Hi) in Hexp.
  - done.
  - right. cbn in Hj. destruct Hj as [ns' Hrr].
    pose proof (Hh _ Hrr) as Hrk. cbn [f_out f_task expected_out] in Hrk.
    pose proof (inv_fired _ _ I _ Hrr) as Hj'. cbn in Hj'.
    destruct (Hretr ns' Hj') as (idx & Hq & Hi & ->).
    exists idx. split_and!; [done..|].
    unfold answer, reranked. congruence.
Qed.

(** ** Calls to the external services *)

Lemma calls_app x (a b : list effect) :
  calls x (a ++ b) = calls x a + calls x b.
Proof. unfold calls. by rewrite List.filter_app, length_app. Qed.

Ltac count_calls x :=
  eexists; (split; [reflexivity|]); destruct x; cbn; split; (lia || done).

Lemma run_task_calls x t w :
  exists delta,
    trace (snd (run_task t w)) = trace w ++ delta /\
    calls x delta <= 1 /\
    (calls x delta <> 0 -> task_name t = caller x).
Proof.
  destruct t as [ev|ev|nodes|nodes]; cbn [run_task].
  - destruct (truthy (ev_get ev "dirname")) eqn:Hd.
    + rewrite (ingest_present _ _ Hd). count_calls x.
    + rewrite (ingest_missing _ _ Hd). exists []. rewrite app_nil_r.
      cbn. split_and!; [done | lia | done].
  - destruct (truthy (ev_get ev "query")) eqn:Hq.
    + destruct (ev_get ev "index") eqn:Hi.
      2-4,6-7: rewrite retrieve_bad_index by (rewrite ?Hi; congruence);
        count_calls x.
      * rewrite (retrieve_no_index _ _ Hq Hi). count_calls x.
      * rewrite (retrieve_with_index _ _ _ Hq Hi). count_calls x.
    + rewrite (retrieve_missing _ _ Hq). exists []. rewrite app_nil_r.
      cbn. split_and!; [done | lia | done].
  - rewrite rerank_eq. count_calls x.
  - rewrite synthesize_eq. count_calls x.
Qed.

(** X9: the glue code never repeats a call.  In any state a run can
    reach, under any schedule, each external service (directory reader,
    index builder, retriever, LLM reranker, LLM synthesizer) has been
    called at most once, and it has been called only if the step that owns
    the call has executed. *)
Theorem each_service_called_at_most_once ev s x :
  reachable ev s ->
  calls x (trace (rs_world s)) <= 1 /\
  (calls x (trace (rs_world s)) <> 0 -> caller x ∈ executed s).
Proof.
  intros Hs.
  cut (calls x (trace (rs_world s)) = 0 \/
       (calls x (trace (rs_world s)) = 1 /\ caller x ∈ executed s)).
  { intros [->|[-> ?]]; split; first [lia | done]. }
  revert s Hs. apply reachable_ind_fire; [by left|].
  intros s l1 t l2 Hs IH Hp.
  pose proof (inv_nodup _ _ (reachable_inv _ _ Hs)) as Hnd.
  destruct (run_task_calls x t (rs_world s)) as (delta & Htr & Hle & Hwho).
  destruct (run_task t (rs_world s)) as [out w'] eqn:Hrun. cbn [snd] in Htr.
  rewrite (fire_fields _ _ _ _ _ Hrun). cbn [rs_world]. unfold executed.
  cbn [rs_history]. rewrite Htr, calls_app, fmap_app. cbn [fmap list_fmap f_task].
  destruct (decide (calls x delta = 0)) as [E0|E0].
  - rewrite E0, Nat.add_0_r. destruct IH as [IH|[IH Hin]]; [by left|].
    right. split; [done|]. apply elem_of_app. by left.
  - specialize (Hwho E0). assert (calls x delta = 1) as -> by lia.
    destruct IH as [->|[_ Hin]].
    + right. split; [done|]. apply elem_of_app. right. rewrite Hwho. by left.
    + exfalso. apply NoDup_app in Hnd as (_ & Hdisj & _).
      apply (Hdisj _ Hin). unfold enabled. rewrite Hp, fmap_app. cbn.
      apply elem_of_app. right. rewrite Hwho. by left.
Qed.

(** ** The workflow context *)

Lemma run_task_ctx t w :
  ctx (snd (run_task t w)) =
    match t with
    | TRetrieve ev =>
        if truthy (ev_get ev "query")
        then <[ "query" := ev_get ev "query" ]> (ctx w)
        else ctx w
    | _ => ctx w
    end.
Proof.
  destruct t as [ev|ev|nodes|nodes]; cbn [run_task].
  - destruct (truthy (ev_get ev "dirname")) eqn:Hd.
    + by rewrite (ingest_present _ _ Hd).
    + by rewrite (ingest_missing _ _ Hd).
  - destruct (truthy (ev_get ev "query")) eqn:Hq;
      [|by rewrite (retrieve_missing _ _ Hq)].
    destruct (ev_get ev "index") eqn:Hi.
    2-4,6-7: by rewrite retrieve_bad_index by (rewrite ?Hi; congruence).
    + by rewrite (retrieve_no_index _ _ Hq Hi).
    + by rewrite (retrieve_with_index _ _ _ Hq Hi).
  - by rewrite rerank_eq.
  - by rewrite synthesize_eq.
Qed.

(** X10: the context of a run holds nothing but the query.  In any state a
    run can reach, the context is empty until [retrieve] has executed with
    a non-empty query, and from then on it is exactly the one binding of
    ["query"] to the query of the StartEvent: no step adds another key,
    changes the value or removes it. *)
Theorem context_holds_only_the_query ev s :
  reachable ev s ->
  ctx (rs_world s) =
    if bool_decide (Retrieve ∈ executed s) && truthy (ev_get ev "query")
    then {[ "query" := ev_get ev "query" ]}
    else ∅.
Proof.
  revert s. apply reachable_ind_fire; [done|].
  intros s l1 t l2 Hs IH Hp.
  pose proof (reachable_inv _ _ Hs) as I.
  assert (Hj : justified ev (rs_history s) t).
  { apply (inv_pending _ _ I). rewrite Hp. apply elem_of_app. right. by left. }
  assert (Hfresh : task_name t ∉ executed s).
  { intros Hin. pose proof (inv_nodup _ _ I) as Hnd.
    apply NoDup_app in Hnd as (_ & Hdisj & _). apply (Hdisj _ Hin).
    unfold enabled. rewrite Hp, fmap_app. apply elem_of_app. right. by left. }
  pose proof (run_task_ctx t (rs_world s)) as Hctx.
  destruct (run_task t (rs_world s)) as [out w'] eqn:Hrun. cbn [snd] in Hctx.
  rewrite (fire_fields _ _ _ _ _ Hrun). cbn [rs_world]. unfold executed.
  cbn [rs_history]. rewrite fmap_app. cbn [fmap list_fmap f_task].
  fold (executed s). rewrite Hctx, IH.
  destruct t as [ev'|ev'|nodes|nodes]; cbn [task_name] in *.
  2: { cbn in Hj. subst ev'.
       rewrite (bool_decide_eq_false_2 _ Hfresh). cbn [andb].
       rewrite bool_decide_eq_true_2
         by (apply elem_of_app; right; by left).
       cbn [andb]. destruct (truthy (ev_get ev "query")); [|done].
       by rewrite insert_empty. }
  all: destruct (decide (Retrieve ∈ executed s)) as [Hin|Hin];
    [ rewrite !bool_decide_eq_true_2;
        [done | apply elem_of_app; by left | done]
    | rewrite !bool_decide_eq_false_2; [done | | done];
      intros [?|Hx%list_elem_of_singleton]%elem_of_app; done ].
Qed.

(** ** The limits of the chain *)

Lemma fired_retrieve ev s ns :
  reachable ev s ->
  {| f_task := TRetrieve ev; f_out := Emit (RetrieverEvent ns) |}
    ∈ rs_history s ->
  exists idx : Index, truthy (ev_get ev "query") = true /\
    ev_get ev "index" = VIndex idx /\ ns = retrieved ev idx.
Proof.
  intros Hs Hf. apply (proj1 (history_outputs ev s Hs)) in Hf.
  cbn [f_out f_task expected_out] in Hf.
  destruct (truthy (ev_get ev "query")) eqn:Hq;
    [|by rewrite (retrieve_missing _ _ Hq) in Hf].
  destruct (ev_get ev "index") as [|b|z|str|idx|nds|resp] eqn:Hi.
  2-4,6-7: by rewrite retrieve_bad_index in Hf by (rewrite ?Hi; congruence).
  - by rewrite (retrieve_no_index _ _ Hq Hi) in Hf.
  - rewrite (retrieve_with_index _ _ _ Hq Hi) in Hf. cbn [fst] in Hf.
    exists idx. split_and!; [done..|]. unfold retrieved. congruence.
Qed.

(** X11: the reranker's limit never binds.  With a retriever that keeps to
    [similarity_top_k] and a reranker that only selects among the nodes it
    is given, whenever [rerank] executes in a run it receives the top-2
    nodes retrieved for the query of the StartEvent, so at most 2 nodes,
    fewer than its [top_n] of 3; what it hands to [synthesize] is a
    selection of those, again at most 2 nodes. *)
Theorem rerank_limit_never_binds ev s (ns : list Node) out :
  top_k_contract -> rerank_contract ->
  reachable ev s ->
  {| f_task := TRerank ns; f_out := out |} ∈ rs_history s ->
  length ns <= 2 /\ length ns < top_n ranker_used /\
  exists (idx : Index) (ns' : list Node),
    ev_get ev "index" = VIndex idx /\
    ns = aretrieve idx 2 (ev_get ev "query") /\
    out = Emit (RerankEvent ns') /\
    ns' ⊆+ ns /\ length ns' <= 2.
Proof.
  intros Hk Hr Hs Hf.
  pose proof (reachable_inv _ _ Hs) as I.
  pose proof (inv_fired _ _ I _ Hf) as Hj. cbn in Hj.
  destruct (fired_retrieve ev s ns Hs Hj) as (idx & Hq & Hi & ->).
  pose proof (Hk idx 2 (ev_get ev "query")) as Hlen. fold (retrieved ev idx) in Hlen.
  apply (proj1 (history_outputs ev s Hs)) in Hf.
  cbn [f_out f_task expected_out] in Hf.
  destruct (Hr ranker_used (retrieved ev idx) (ev_get ev "query"))
    as [_ Hsub].
  split; [done|]. split; [cbn; lia|].
  exists idx, (postprocess_nodes ranker_used (retrieved ev idx)
                 (ev_get ev "query")).
  split_and!; [done | done | done | done |].
  apply submseteq_length in Hsub. lia.
Qed.

(** ** [main] *)

(** X12: [main] chains its two runs.  The first run always returns the
    index built from the directory ["docs"], so the second run never
    queries without an index; the second run returns the response
    synthesized for the question over that index, and with a synthesizer
    that honours [streaming=True] that response is a stream, whose chunks
    are what [main] prints. *)
Theorem main_chains_its_two_runs :
  streaming_contract ->
  let ev1 : StartEvent := {[ "dirname" := VStr "docs" ]} in
  let ev2 : StartEvent :=
    <[ "query" := VStr the_question ]>
      {[ "index" := VIndex (built_index ev1) ]} in
  main_index = Some (VIndex (built_index ev1)) /\
  main_result = Some (VResponse (answer ev2 (built_index ev1))) /\
  exists gen,
    answer ev2 (built_index ev1) = StreamingResponse gen /\
    main_chunks = Some gen.
Proof.
  intros Hstream ev1 ev2.
  assert (H1 : main_index = Some (VIndex (built_index ev1))) by reflexivity.
  assert (H2 : main_result = Some (VResponse (answer ev2 (built_index ev1))))
    by reflexivity.
  split; [done|]. split; [done|].
  unfold main_chunks. rewrite H2.
  specialize (Hstream summarizer_used (ev_get ev2 "query")
                (reranked ev2 (built_index ev1)) eq_refl).
  fold (answer ev2 (built_index ev1)) in Hstream.
  destruct (answer ev2 (built_index ev1)) as [text|gen];
    [discriminate Hstream | by exists gen].
Qed.

End Facts.

(** ** The check made when the module is loaded *)

Section StartupFacts.

Context {StepConfig : Type}.

Implicit Types steps from_class from_instance : @step_dict StepConfig.

Lemma check_loop_complaints steps :
  complaints (check_loop steps) = fst <$> List.filter lacks_config steps.
Proof.
  induction steps as [|[n f] rest IH]; [done|].
  cbn [check_loop List.filter]. unfold lacks_config at 1. cbn [snd].
  destruct (getattr_step_config f); cbn; by rewrite <- IH.
Qed.

Lemma check_loop_configs steps :
  configs_shown (check_loop steps)
    = (fun p => getattr_step_config (snd p)) <$> steps.
Proof.
  induction steps as [|[n f] rest IH]; [done|].
  cbn [check_loop]. destruct (getattr_step_config f) eqn:E;
    cbn; rewrite E; by rewrite <- IH.
Qed.

Lemma check_loop_length steps :
  length (check_loop steps)
    = length steps + length (List.filter lacks_config steps).
Proof.
  induction steps as [|[n f] rest IH]; [done|].
  cbn [check_loop List.filter]. unfold lacks_config at 1. cbn [snd].
  destruct (getattr_step_config f); cbn [length]; lia.
Qed.

(** X13: the check made at load time complains about exactly the steps
    without a [__step_config]: the complaints name, in the order of the
    dict and once each, the steps whose attribute is absent or None; one
    configuration line is printed per step; and the instance is looked at
    only when the class yields no steps. *)
Theorem startup_check_reports_missing from_class from_instance :
  let steps := choose_steps from_class from_instance in
  complaints (startup_check from_class from_instance)
    = fst <$> List.filter lacks_config steps /\
  configs_shown (startup_check from_class from_instance)
    = (fun p => getattr_step_config (snd p)) <$> steps /\
  length (startup_check from_class from_instance)
    = 1 + length steps + length (List.filter lacks_config steps) /\
  (from_class <> [] -> steps = from_class) /\
  (from_class = [] -> steps = from_instance).
Proof.
  cbn zeta. unfold startup_check.
  set (steps := choose_steps from_class from_instance).
  split_and!.
  - apply check_loop_complaints.
  - apply check_loop_configs.
  - cbn [length]. by rewrite check_loop_length.
  - unfold steps. by destruct from_class.
  - unfold steps. by intros ->.
Qed.

(** X14: when every step carries a configuration, as [@step] arranges,
    the check prints the dict and one line per step and no complaint. *)
Theorem startup_check_silent from_class from_instance :
  Forall (fun p => lacks_config p = false)
    (choose_steps from_class from_instance) ->
  complaints (startup_check from_class from_instance) = [] /\
  length (startup_check from_class from_instance)
    = S (length (choose_steps from_class from_instance)).
Proof.
  unfold startup_check.
  set (steps := choose_steps from_class from_instance). clearbody steps.
  intros Hall. change (complaints (StepsClass steps :: check_loop steps))
    with (complaints (check_loop steps)). cbn [length].
  induction Hall as [|[n f] rest Hf Hall [IH1 IH2]]; [done|].
  unfold lacks_config in Hf. cbn [snd] in Hf. cbn [check_loop].
  destruct (getattr_step_config f); [|discriminate Hf].
  cbn [length]. split; [exact IH1 | lia].
Qed.

End StartupFacts.

(** * The model at work on the small library *)

Section DemoFacts.

Import Demo.

Lemma demo_top_k : @top_k_contract demo_types demo_lib.
Proof.
  intros idx k q. cbn. unfold demo_aretrieve. rewrite length_take. lia.
Qed.

Lemma demo_rerank : @rerank_contract demo_types demo_lib.
Proof.
  intros r ns q. cbn. unfold demo_postprocess. split.
  - rewrite length_take. lia.
  - transitivity (reverse ns).
    + apply sublist_submseteq, sublist_take.
    + by rewrite reverse_Permutation.
Qed.

Lemma demo_streaming : @streaming_contract demo_types demo_lib.
Proof. intros s q ns H. cbn. unfold demo_asynthesize. by rewrite H. Qed.

End DemoFacts.

(** The two runs of [main], served in order: the first one ends as soon as
    [ingest] has returned the index; the second one goes through [ingest]
    (which returns None) and then the whole chain. *)
Example first_run_executes :
  executed (@run _ Demo.demo_lib Demo.ev_docs) = [Ingest].
Proof. vm_compute. reflexivity. Qed.

Example second_run_executes :
  executed (@run _ Demo.demo_lib Demo.ev_query)
    = [Ingest; Retrieve; Rerank; Synthesize].
Proof. vm_compute. reflexivity. Qed.

Example second_run_result :
  rs_result (@run _ Demo.demo_lib Demo.ev_query)
    = Some (Returned (VResponse
        (StreamingResponse ["optical cover"; "dental cash back is 100"]))).
Proof. vm_compute. reflexivity. Qed.

(** An empty StartEvent: both steps return None and touch nothing. *)
Lemma missing_input_returns_none_witness :
  @ingest _ Demo.demo_lib ∅ Demo.w0 = (ReturnNone, Demo.w0) /\
  @retrieve _ Demo.demo_lib ∅ Demo.w0 = (ReturnNone, Demo.w0).
Proof.
  destruct (@missing_input_returns_none _ Demo.demo_lib ∅ Demo.w0) as [H1 H2].
  split; [apply H1 | apply H2]; left; reflexivity.
Defined.

(** The query of [main] against a two-chunk index. *)
Lemma retrieve_fetches_top_2_witness :
  exists nodes : list (@Node Demo.demo_types),
    nodes = [Demo.node "dental cash back is 100" 23;
             Demo.node "optical cover" 13] /\
    fst (@retrieve _ Demo.demo_lib Demo.ev_query Demo.w0)
      = Emit (RetrieverEvent nodes) /\
    length nodes <= 2.
Proof.
  destruct (@retrieve_fetches_top_2 _ Demo.demo_lib Demo.ev_query Demo.w0
              Demo.two_chunks)
    as (nodes & Hn & Hout & _ & Hlen);
    [reflexivity | reflexivity | apply demo_top_k |].
  exists nodes. split; [|by split]. rewrite Hn. reflexivity.
Defined.

(** Four retrieved nodes: the reranker keeps three of them. *)
Lemma rerank_keeps_top_3_witness :
  exists new_nodes : list (@Node Demo.demo_types),
    fst (@rerank _ Demo.demo_lib Demo.four_nodes Demo.w0)
      = Emit (RerankEvent new_nodes) /\
    new_nodes = [Demo.node "d" 4; Demo.node "c" 3; Demo.node "b" 2] /\
    length new_nodes <= 3.
Proof.
  destruct (@rerank_keeps_top_3 _ Demo.demo_lib Demo.four_nodes Demo.w0
              demo_rerank)
    as (new_nodes & Hn & _ & _ & Hout & _ & Hlen & _).
  exists new_nodes. split; [done|]. split; [|done]. rewrite Hn. reflexivity.
Defined.

(** The first run of [main]: the index over the three loaded documents. *)
Lemma ingest_builds_index_witness :
  rs_result (@run _ Demo.demo_lib Demo.ev_docs) =
    Some (Returned (VIndex Demo.three_docs)).
Proof.
  destruct (@ingest_builds_index _ Demo.demo_lib Demo.ev_docs Demo.w0)
    as (index & Hi & _ & Hrun & _); [reflexivity|].
  rewrite Hrun, Hi. reflexivity.
Defined.

(** The answer over two nodes comes back as a stream of two chunks. *)
Lemma synthesize_streams_witness :
  fst (@synthesize _ Demo.demo_lib Demo.two_nodes Demo.w0) =
    Emit (StopEvent (VResponse (StreamingResponse ["a"; "b"]))).
Proof.
  destruct (@synthesize_streams _ Demo.demo_lib Demo.two_nodes
              Demo.w0 demo_streaming)
    as (response & Hr & _ & Hout & _).
  rewrite Hout, Hr. reflexivity.
Defined.


(** The second run of [main], served in order: three steps of the chain
    after [ingest], none of them twice. *)
Lemma chain_is_linear_after_start_witness :
  NoDup (executed (@run _ Demo.demo_lib Demo.ev_query)) /\
  length (executed (@run _ Demo.demo_lib Demo.ev_query)) <= 4.
Proof.
  destruct (@chain_is_linear_after_start _ Demo.demo_lib Demo.ev_query
              (@run _ Demo.demo_lib Demo.ev_query))
    as (_ & Hnd & Hlen & _); [apply run_reachable|].
  by split.
Defined.

(** C2, as stated, fails on the code: the first state of the first run of
    [main] already offers two steps, [ingest] and [retrieve]. *)
Lemma start_offers_a_choice : ~ @no_choice Demo.demo_types Demo.demo_lib.
Proof.
  intros H.
  specialize (H Demo.ev_docs (@init _ Demo.ev_docs) (rtc_refl _ _)
                Ingest Retrieve).
  cbn in H. discriminate H.
  - by left.
  - right. by left.
Qed.

(** ** The further properties, on examples *)

(** An empty StartEvent: both steps return None and the run has no
    result. *)
Lemma run_with_nothing_to_do_witness :
  rs_result (@run _ Demo.demo_lib ∅) = None /\
  executed (@run _ Demo.demo_lib ∅) = [Ingest; Retrieve].
Proof.
  destruct (@run_with_nothing_to_do _ Demo.demo_lib ∅)
    as (Hall & _ & Hex); [by left | by left |].
  split; [|exact Hex]. apply Hall, run_reachable.
Defined.

(** The first run of [main] ends with the index and has read the directory
    and built the index, nothing else. *)
Lemma ingest_run_outcome_witness :
  rs_result (@run _ Demo.demo_lib Demo.ev_docs)
    = Some (Returned (VIndex Demo.three_docs)) /\
  length (trace (rs_world (@run _ Demo.demo_lib Demo.ev_docs))) = 2.
Proof.
  destruct (@ingest_run_outcome _ Demo.demo_lib Demo.ev_docs
              (@run _ Demo.demo_lib Demo.ev_docs))
    as [Hres Hw];
    [reflexivity | by left | apply run_reachable | apply run_completes |].
  split; [rewrite Hres; reflexivity | by rewrite Hw].
Defined.

(** The second run of [main] over a two-chunk index. *)
Lemma query_run_outcome_witness :
  rs_result (@run _ Demo.demo_lib Demo.ev_query)
    = Some (Returned (VResponse
        (StreamingResponse ["optical cover"; "dental cash back is 100"]))) /\
  length (trace (rs_world (@run _ Demo.demo_lib Demo.ev_query))) = 12.
Proof.
  destruct (@query_run_outcome _ Demo.demo_lib Demo.ev_query Demo.two_chunks
              (@run _ Demo.demo_lib Demo.ev_query))
    as (Hres & _ & Htr);
    [by left | reflexivity | reflexivity | apply run_reachable
    | apply run_completes |].
  split; [rewrite Hres; reflexivity | by rewrite Htr].
Defined.


(** An index given by name: the run ends with the AttributeError, the
    query already stored. *)
Lemma retrieve_raises_on_non_index_witness :
  fst (@retrieve _ Demo.demo_lib Demo.ev_bad_index Demo.w0)
    = Raise (AttributeError "as_retriever") /\
  ctx (snd (@retrieve _ Demo.demo_lib Demo.ev_bad_index Demo.w0)) !! "query"
    = Some (VStr the_question) /\
  rs_result (@run _ Demo.demo_lib Demo.ev_bad_index)
    = Some (Failed (AttributeError "as_retriever")).
Proof.
  destruct (@retrieve_raises_on_non_index _ Demo.demo_lib Demo.ev_bad_index
              Demo.w0)
    as (Heq & _ & Hrun); [reflexivity | done | done |].
  rewrite Heq. split; [done|]. split; [done|].
  apply Hrun; [by left | apply run_reachable | apply run_completes].
Defined.

(** The value returned by the first run of [main] is the built index. *)
Lemma run_returns_index_or_answer_witness :
  (truthy (ev_get Demo.ev_docs "dirname") = true /\
   VIndex Demo.three_docs = VIndex (@built_index _ Demo.demo_lib Demo.ev_docs))
  \/
  (exists idx : @Index Demo.demo_types,
     truthy (ev_get Demo.ev_docs "query") = true /\
     ev_get Demo.ev_docs "index" = VIndex idx /\
     VIndex Demo.three_docs
       = VResponse (@answer _ Demo.demo_lib Demo.ev_docs idx)).
Proof.
  apply (@run_returns_index_or_answer _ Demo.demo_lib Demo.ev_docs
           (@run _ Demo.demo_lib Demo.ev_docs));
    [apply run_reachable | reflexivity].
Defined.

(** The second run of [main] calls the reranker once. *)
Lemma each_service_called_at_most_once_witness :
  calls Reranker (trace (rs_world (@run _ Demo.demo_lib Demo.ev_query))) <= 1 /\
  Rerank ∈ executed (@run _ Demo.demo_lib Demo.ev_query).
Proof.
  destruct (@each_service_called_at_most_once _ Demo.demo_lib Demo.ev_query
              (@run _ Demo.demo_lib Demo.ev_query) Reranker)
    as [Hle Hin]; [apply run_reachable|].
  split; [exact Hle|]. apply Hin. vm_compute. discriminate.
Defined.

(** After the second run of [main] the context holds the question. *)
Lemma context_holds_only_the_query_witness :
  ctx (rs_world (@run _ Demo.demo_lib Demo.ev_query))
    = {[ "query" := VStr the_question ]}.
Proof.
  rewrite (@context_holds_only_the_query _ Demo.demo_lib Demo.ev_query
             (@run _ Demo.demo_lib Demo.ev_query) (run_reachable _)).
  reflexivity.
Defined.

(** In the second run of [main] the reranker is given two nodes. *)
Lemma rerank_limit_never_binds_witness :
  length [Demo.node "dental cash back is 100" 23;
          Demo.node "optical cover" 13] < top_n ranker_used.
Proof.
  destruct (@rerank_limit_never_binds _ Demo.demo_lib Demo.ev_query
              (@run _ Demo.demo_lib Demo.ev_query)
              [Demo.node "dental cash back is 100" 23;
               Demo.node "optical cover" 13]
              (Emit (RerankEvent [Demo.node "optical cover" 13;
                                  Demo.node "dental cash back is 100" 23]))
              demo_top_k demo_rerank (run_reachable _))
    as (_ & Hlt & _); [|exact Hlt].
  right. right. left.
Defined.

(** [main] over the demo library prints two chunks. *)
Lemma main_chains_its_two_runs_witness :
  @main_index _ Demo.demo_lib = Some (VIndex Demo.three_docs) /\
  @main_chunks _ Demo.demo_lib
    = Some ["optical cover"; "dental cash back is 100"].
Proof.
  destruct (@main_chains_its_two_runs _ Demo.demo_lib demo_streaming)
    as (Hi & _ & gen & Hgen & Hch).
  split; [rewrite Hi; reflexivity|].
  rewrite Hch. f_equal. by injection Hgen as <-.
Defined.

(** With every step decorated the check prints five lines and no
    complaint. *)
Lemma startup_check_silent_witness :
  complaints (startup_check Demo.steps_decorated []) = [] /\
  length (startup_check Demo.steps_decorated []) = 5.
Proof.
  apply (startup_check_silent Demo.steps_decorated []).
  repeat constructor.
Defined.

(** A dict whose second step has lost its configuration: one complaint,
    naming that step, among five lines. *)
Lemma startup_check_reports_missing_witness :
  complaints (startup_check [] Demo.steps_one_bare) = ["retrieve"] /\
  length (startup_check [] Demo.steps_one_bare) = 5.
Proof.
  destruct (startup_check_reports_missing [] Demo.steps_one_bare)
    as (Hc & _ & Hl & _).
  split; [rewrite Hc | rewrite Hl]; reflexivity.
Defined.

(** C4, as stated, fails on the code: the only test [retrieve] makes on
    [index] is against None, so an index given by its name passes it, and
    [retrieve] raises on [as_retriever] instead of emitting a
    RetrieverEvent. *)
Lemma non_index_is_not_retrieved :
  ~ @retrieves_on_any_index Demo.demo_types Demo.demo_lib.
Proof.
  intros H.
  destruct (H Demo.ev_bad_index Demo.w0) as [nodes Hn];
    [reflexivity | done |].
  vm_compute in Hn. discriminate Hn.
Qed.
